(** * The channel scheduler of [app.py], embedded in Rocq

    The development follows the source file function by function:
    [get_duration], [get_channel_files], [stable_shuffle],
    [build_playlist] and [get_now_playing].  The parts of the Python
    runtime these functions rely on are collected first, in [Module Py]. *)

From Stdlib Require Import ZArith QArith Qround Lqa Lia.
From Stdlib Require Import String Ascii List Permutation Sorted.
From stdpp Require Import base option list gmap strings.
Import ListNotations.

Local Open Scope Z_scope.
Local Open Scope string_scope.
Local Open Scope list_scope.

(** ** The Python runtime, as far as [app.py] uses it *)

Module Py.

(** Exceptions that the modelled code can meet. *)
Inductive exn : Type :=
| ZeroDivisionError
| ValueError
| IndexError
| FileNotFoundError
| OSError.

(** The outcome of evaluating an expression: a value, or a raised
    exception. *)
Inductive res (A : Type) : Type :=
| Ok (a : A)
| Raise (e : exn).
Arguments Ok {A} a.
Arguments Raise {A} e.

Definition bind {A B} (m : res A) (k : A -> res B) : res B :=
  match m with
  | Ok a => k a
  | Raise e => Raise e
  end.

(** [try: m  except Exception: h]. *)
Definition try_except {A} (m : res A) (h : exn -> res A) : res A :=
  match m with
  | Ok a => Ok a
  | Raise e => h e
  end.

Fixpoint mapM {A B} (f : A -> res B) (l : list A) : res (list B) :=
  match l with
  | [] => Ok []
  | x :: l' =>
      bind (f x) (fun y => bind (mapM f l') (fun ys => Ok (y :: ys)))
  end.

(** *** Numbers

    A finite [float] is a rational, and the model takes [float]
    arithmetic as exact; an [int] is an integer, embedded in the
    rationals where Python mixes the two. *)

(** [int(x)] truncates towards zero. *)
Definition int (x : Q) : Z := Z.quot (Qnum x) (Zpos (Qden x)).

(** [a % b] on integers: the result has the sign of [b]; a zero
    divisor raises. *)
Definition mod_ (a b : Z) : res Z :=
  if Z.eqb b 0 then Raise ZeroDivisionError else Ok (a mod b).

(** [x < y]. *)
Definition lt (x y : Q) : bool := negb (Qle_bool y x).

(** [sum(l)]: the fold starts from the integer [0]. *)
Definition sum (l : list Q) : Q := fold_left Qplus l (inject_Z 0).

(** *** Strings

    A [str] is modelled by its bytes; the functions below are the
    ASCII behaviour of the Python methods of the same name. *)

Definition lower_char (c : ascii) : ascii :=
  let n := nat_of_ascii c in
  if (65 <=? n)%nat && (n <=? 90)%nat then ascii_of_nat (n + 32) else c.

Fixpoint lower (s : string) : string :=
  match s with
  | EmptyString => EmptyString
  | String c s' => String (lower_char c) (lower s')
  end.

(** [s.startswith(p)]. *)
Definition startswith (s p : string) : bool := String.prefix p s.

(** [s.endswith(p)], through the reversed strings. *)
Definition rev_string (s : string) : string :=
  string_of_list_ascii (rev (list_ascii_of_string s)).

Definition endswith (s p : string) : bool :=
  String.prefix (rev_string p) (rev_string s).

(** [s.endswith(t)] for a tuple [t] of suffixes. *)
Definition endswith_any (s : string) (t : list string) : bool :=
  existsb (endswith s) t.

(** Characters removed by [str.strip()]: tab, line feed, vertical tab,
    form feed, carriage return, the four separators 28-31 and space. *)
Definition is_space (c : ascii) : bool :=
  let n := nat_of_ascii c in
  ((9 <=? n)%nat && (n <=? 13)%nat)
  || ((28 <=? n)%nat && (n <=? 32)%nat).

Fixpoint lstrip (s : string) : string :=
  match s with
  | EmptyString => EmptyString
  | String c s' => if is_space c then lstrip s' else s
  end.

Definition strip (s : string) : string :=
  rev_string (lstrip (rev_string (lstrip s))).

(** [sorted(l)] on strings.  Python compares strings code point by code
    point; any sort over that total order gives the same list, here by
    insertion. *)
Fixpoint insert_sorted (x : string) (l : list string) : list string :=
  match l with
  | [] => [x]
  | y :: l' => if String.leb x y then x :: l else y :: insert_sorted x l'
  end.

Fixpoint sorted (l : list string) : list string :=
  match l with
  | [] => []
  | x :: l' => insert_sorted x (sorted l')
  end.

(** [l[i]]. *)
Definition index {A} (l : list A) (i : nat) : res A :=
  match l !! i with
  | Some x => Ok x
  | None => Raise IndexError
  end.

(** [os.path.join(a, b)] of [posixpath]. *)
Definition path_join (a b : string) : string :=
  if startswith b "/" then b
  else if String.eqb a "" || endswith a "/" then String.append a b
  else String.append a (String.append "/" b).

(** *** JSON values, as [json.load] returns them *)
#[warnings="-register-all"]
Inductive json : Type :=
| JNull
| JBool (b : bool)
| JInt (n : Z)
| JFloat (x : Q)
| JStr (s : string)
| JArr (l : list json)
| JObj (l : list (string * json)).

(** The truth value Python gives to a JSON value in an [if]. *)
Definition truthy (v : json) : bool :=
  match v with
  | JNull => false
  | JBool b => b
  | JInt n => negb (Z.eqb n 0)
  | JFloat x => negb (Qeq_bool x 0)
  | JStr s => negb (String.eqb s "")
  | JArr l => match l with [] => false | _ => true end
  | JObj l => match l with [] => false | _ => true end
  end.

(** [v == s] for a string literal [s]. *)
Definition eq_str (v : option json) (s : string) : bool :=
  match v with
  | Some (JStr s') => String.eqb s' s
  | _ => false
  end.

End Py.

Import Py.

(** ** The [random] module

    A generator state of type [G] stands for an instance of
    [random.Random]: the one the module-level functions share, or one
    made from a seed.  [randbelow] is the primitive every CPython draw
    goes through; [randint] and [shuffle] are written over it as in
    [Lib/random.py].  [sample] is taken by its documented contract: [k]
    entries of the population at pairwise distinct positions. *)

Class Random (G : Type) : Type := {
  seeded : Z -> G;
  randbelow : G -> nat -> nat * G;
  sample : G -> list string -> nat -> list string * G;
  randbelow_lt : forall g n, (0 < n)%nat -> ((randbelow g n).1 < n)%nat;
  sample_spec : forall g pop k, (k <= length pop)%nat ->
    exists idxs : list nat,
      NoDup idxs /\ length idxs = k
      /\ Forall2 (fun i x => pop !! i = Some x) idxs (sample g pop k).1
}.

Section Generator.
Context {G : Type} `{Random G}.

(** [randint(a, b)] is [a + _randbelow(b - a + 1)]. *)
Definition randint (a b : Z) (g : G) : Z * G :=
  let (r, g') := randbelow g (Z.to_nat (b - a + 1)) in
  (a + Z.of_nat r, g').

(** [x[i], x[j] = x[j], x[i]]. *)
Definition swap {A} (x : list A) (i j : nat) : list A :=
  match x !! i, x !! j with
  | Some a, Some b => <[j := a]> (<[i := b]> x)
  | _, _ => x
  end.

(** The loop of [shuffle]:
    [for i in reversed(range(1, len(x))): j = randbelow(i + 1); swap]. *)
Fixpoint shuffle_from {A} (i : nat) (x : list A) (g : G) : list A * G :=
  match i with
  | O => (x, g)
  | S i' =>
      let (j, g') := randbelow g (i + 1) in
      shuffle_from i' (swap x i j) g'
  end.

Definition shuffle {A} (x : list A) (g : G) : list A * G :=
  shuffle_from (length x - 1) x g.

(** [random.sample(pop, k)]: a [k] outside [0 .. len(pop)] raises. *)
Definition random_sample (pop : list string) (k : Z) (g : G)
  : res (list string * G) :=
  if (0 <=? k)%Z && (k <=? Z.of_nat (length pop))%Z
  then Ok (sample g pop (Z.to_nat k))
  else Raise ValueError.

End Generator.

(** ** Computations that may raise and that may draw from the shared
       generator *)

Definition M (G A : Type) : Type := G -> res (A * G).

Definition ret {G A} (a : A) : M G A := fun g => Ok (a, g).

Definition bindM {G A B} (m : M G A) (k : A -> M G B) : M G B :=
  fun g => match m g with
           | Ok (a, g') => k a g'
           | Raise e => Raise e
           end.

(** A computation that does not touch the generator. *)
Definition lift {G A} (r : res A) : M G A :=
  fun g => match r with
           | Ok a => Ok (a, g)
           | Raise e => Raise e
           end.

(** A draw: it cannot raise. *)
Definition draw {G A} (f : G -> A * G) : M G A := fun g => Ok (f g).

Notation "'do' x <- m ; k" := (bindM m (fun x => k))
  (at level 10, x name, m at level 100, k at level 200).
Notation "'try' x <- m ; k" := (bind m (fun x => k))
  (at level 10, x name, m at level 100, k at level 200).

(** ** app.py *)

(** [START_TIME = datetime(2025, 1, 1, tzinfo=timezone.utc).timestamp()]. *)
Definition START_TIME : Q := inject_Z 1735689600.

Definition VALID_EXTS : list string :=
  [".mp4"; ".m4v"; ".mov"; ".avi"; ".mkv"].

(** An entry of [config["channels"]].  The keys [id], [name] and [path]
    are read with [channel[...]]; [rotation] and [commercials] are read
    with [channel.get(...)] and may be absent. *)
Record channel : Type := {
  ch_id : string;
  ch_name : string;
  ch_path : string;
  ch_rotation : option json;
  ch_commercials : option json
}.

(** What [get_now_playing] returns:
    [(now_file, now_offset, next_file, start_time)]. *)
Definition playing : Type :=
  (option string * Z * option string * option string)%type.

Section App.
Context {G : Type} `{Random G}.

(** The [stdout] of the [ffprobe] run on a file, or the exception
    [subprocess.run] raises.  It is a function of the path, so the
    [lru_cache] around [get_duration] changes no result and is left
    out. *)
Variable ffprobe : string -> res string.

(** [float(s)] on the strings that denote a finite number;
    [ValueError] on a string that is no number. *)
Variable float : string -> res Q.

(** [int(hashlib.md5(s.encode()).hexdigest(), 16)]. *)
Variable md5_int : string -> Z.

(** The directories of the file system: the entries [os.listdir] gives
    for a path, in its order, or [None] where nothing exists.  A path
    that names a regular file, or a directory that cannot be read, is
    outside the model. *)
Variable fs : string -> option (list string).

(** [time.strftime("%-I:%M%p", time.localtime(x))]. *)
Variable strftime_local : Q -> string.

Definition path_exists (p : string) : bool :=
  match fs p with Some _ => true | None => false end.

Definition listdir (p : string) : res (list string) :=
  match fs p with Some es => Ok es | None => Raise FileNotFoundError end.

(** *** [get_duration] *)
Definition get_duration (filepath : string) : res Q :=
  try_except
    (try result_stdout <- ffprobe filepath;
     float (strip result_stdout))
    (fun e => Ok (inject_Z (22 * 60))).

(** *** [get_channel_files] *)
Definition valid_ext (f : string) : bool :=
  endswith_any (lower f) VALID_EXTS.

Definition get_channel_files (ch : channel) : res (list string) :=
  let path := ch_path ch in
  if negb (path_exists path) then Ok []
  else
    try entries <- listdir path;
    Ok (map (fun f => path_join path (strip f))
            (List.filter valid_ext (sorted entries))).

(** *** [stable_shuffle]

    The generator [rng] is the function's own, made from the seed; the
    shared generator is passed through untouched. *)
Definition stable_shuffle (files : list string) (seed : string)
  : M G (list string) :=
  let rng := seeded (md5_int seed) in
  let shuffled := files in
  let (shuffled, rng) := shuffle shuffled rng in
  ret shuffled.

(** *** [build_playlist] *)

(** The loop of step 4, with [playlist] as built so far. *)
Fixpoint interleave (commercials files playlist : list string)
  : M G (list string) :=
  match files with
  | [] => ret playlist
  | ep :: files' =>
      let playlist := playlist ++ [ep] in
      match commercials with
      | _ :: _ =>
          do num_ads <- draw (randint 0 2);
          do chosen_ads <-
            random_sample commercials
              (Z.min num_ads (Z.of_nat (length commercials)));
          interleave commercials files' (playlist ++ chosen_ads)
      | [] => interleave commercials files' playlist
      end
  end.

Definition scan_commercials (commercial_path : string)
  : res (list string) :=
  if path_exists commercial_path then
    try entries <- listdir commercial_path;
    Ok (map (fun f => path_join commercial_path f)
            (List.filter valid_ext entries))
  else Ok [].

Definition build_playlist (ch : channel) : M G (list string) :=
  do files <- lift (get_channel_files ch);
  do files <-
    (if eq_str (ch_rotation ch) "random"
     then stable_shuffle files (ch_id ch)
     else ret (sorted files));
  if truthy (default (JBool true) (ch_commercials ch)) then
    let commercial_path := path_join "media" "commercials" in
    do commercials <- lift (scan_commercials commercial_path);
    interleave commercials files []
  else ret files.

(** [for ch in CHANNELS: PLAYLISTS[ch["id"]] = build_playlist(ch)]. *)
Fixpoint startup (CHANNELS : list channel)
    (PLAYLISTS : gmap string (list string))
  : M G (gmap string (list string)) :=
  match CHANNELS with
  | [] => ret PLAYLISTS
  | ch :: rest =>
      do playlist <- build_playlist ch;
      startup rest (<[ch_id ch := playlist]> PLAYLISTS)
  end.

(** *** [get_now_playing] *)

(** The loop over [enumerate(durations)], from index [i] on, with the
    running [offset]; [None] when the loop ends without returning. *)
Fixpoint walk (files : list string) (now : Q) (i : nat)
    (durations : list Q) (offset : Q) : res (option playing) :=
  match durations with
  | [] => Ok None
  | d :: durations' =>
      if lt offset d then
        try now_file <- index files i;
        let now_offset := int offset in
        try next_file <-
          (if (1 <? length files)%nat
           then index files ((i + 1) mod length files)%nat
           else Ok now_file);
        let time_until_next := (d - offset)%Q in
        let start_time := strftime_local (now + time_until_next)%Q in
        Ok (Some (Some now_file, now_offset, Some next_file,
                  Some start_time))
      else walk files now (S i) durations' (offset - d)%Q
  end.

(** [now] is the reading of [time.time()]; the two readings of one call
    are taken to be the same. *)
Definition get_now_playing (PLAYLISTS : gmap string (list string))
    (ch : channel) (now : Q) : res playing :=
  let files := default [] (PLAYLISTS !! ch_id ch) in
  match files with
  | [] => Ok (None, 0, None, None)
  | file0 :: _ =>
      try durations <- mapM get_duration files;
      let total := sum durations in
      let elapsed := int (now - START_TIME)%Q in
      try elapsed <- mod_ elapsed (int total);
      let offset := inject_Z elapsed in
      try found <- walk files now 0 durations offset;
      match found with
      | Some r => Ok r
      | None => Ok (Some file0, 0, Some file0, None)
      end
  end.

End App.

(** ** A small concrete world

    A generator, a prober and a directory tree on which the functions can
    be run. *)

Module Fake.

(** A counter as generator: [randbelow n] gives the counter modulo [n]
    and advances it; [sample] takes the first [k] entries. *)
Definition fake_randbelow (g n : nat) : nat * nat := ((g mod n)%nat, S g).

Definition fake_sample (g : nat) (pop : list string) (k : nat)
  : list string * nat := (take k pop, S g).

#[global, refine] Instance fake_random : Random nat := {|
  seeded := fun z => Z.to_nat (z mod 97);
  randbelow := fake_randbelow;
  sample := fake_sample
|}.
Proof.
  - intros g n Hn. simpl. apply Nat.mod_upper_bound. lia.
  - intros g pop k Hk. exists (seq 0 k). split; [apply NoDup_seq|].
    split; [apply length_seq|]. simpl.
    apply Forall2_same_length_lookup. split.
    + rewrite length_seq, length_take. lia.
    + intros i a b Ha Hb. apply lookup_seq in Ha as [-> _].
      rewrite lookup_take_Some in Hb. tauto.
Defined.

(** A prober that knows six files; running it on any other raises. *)
Definition fake_ffprobe (filepath : string) : res string :=
  if String.eqb filepath "media/tv/a.MP4" then Ok "600.000000
"
  else if String.eqb filepath "media/tv/b.mp4" then Ok "900.000000
"
  else if String.eqb filepath "media/tv/c.mp4" then Ok "600.500000
"
  else if String.eqb filepath "media/tv/z.mp4" then Ok "0.000000
"
  else if String.eqb filepath "media/tv/h.mp4" then Ok "0.500000
"
  else if String.eqb filepath "media/tv/n.mp4" then Ok "N/A
"
  else Raise OSError.

(** [float] on the outputs of [fake_ffprobe]. *)
Definition fake_float (s : string) : res Q :=
  if String.eqb s "600.000000" then Ok (600 # 1)
  else if String.eqb s "900.000000" then Ok (900 # 1)
  else if String.eqb s "600.500000" then Ok (1201 # 2)
  else if String.eqb s "0.000000" then Ok (0 # 1)
  else if String.eqb s "0.500000" then Ok (1 # 2)
  else Raise ValueError.

Definition fake_md5_int (s : string) : Z := Z.of_nat (String.length s).

Definition fake_fs (p : string) : option (list string) :=
  if String.eqb p "media/tv" then Some ["b.mp4"; "notes.txt"; "a.MP4"]
  else if String.eqb p "media/docs" then Some ["readme.txt"]
  else if String.eqb p "media/commercials" then Some ["ad2.mp4"; "ad1.mp4"]
  else None.

Definition fake_strftime (x : Q) : string := "".

Definition tv (rotation commercials : option json) : channel :=
  {| ch_id := "tv"; ch_name := "TV"; ch_path := "media/tv";
     ch_rotation := rotation; ch_commercials := commercials |}.

End Fake.

(** ** The vocabulary of the properties *)

(** The order of [sorted]. *)
Definition str_le (a b : string) : Prop := String.leb a b = true.

(** A block of filler clips behind a main entry: at most two, taken from
    pairwise distinct positions of the pool. *)
Definition filler_block (pool block : list string) : Prop :=
  (length block <= 2)%nat
  /\ exists idxs : list nat,
       NoDup idxs /\ Forall2 (fun i x => pool !! i = Some x) idxs block.

(** The playlist that puts each block behind its main entry. *)
Definition with_fillers (main : list string) (blocks : list (list string))
  : list string :=
  concat (zip_with cons main blocks).

(** The filler switch of [build_playlist]:
    [channel.get("commercials", True)] as a truth value. *)
Definition filler_on (ch : channel) : bool :=
  truthy (default (JBool true) (ch_commercials ch)).

(** The JSON values Python takes as false. *)
Definition falsy (v : json) : Prop :=
  v = JNull \/ v = JBool false \/ v = JInt 0
  \/ (exists x, v = JFloat x /\ (x == 0)%Q)
  \/ v = JStr "" \/ v = JArr [] \/ v = JObj [].

Definition set_commercials (ch : channel) (v : option json) : channel :=
  {| ch_id := ch_id ch; ch_name := ch_name ch; ch_path := ch_path ch;
     ch_rotation := ch_rotation ch; ch_commercials := v |}.

(** The main files in the order of step 2. *)
Definition ordered_files {G : Type} `{Random G} (md5_int : string -> Z)
    (ch : channel) (files : list string) : list string :=
  if eq_str (ch_rotation ch) "random"
  then (shuffle files (seeded (md5_int (ch_id ch)))).1
  else sorted files.

(** The sentence that only [false] switches the filler off: any other
    value of the [commercials] key gives the playlist of the channel
    without the key. *)
Definition only_false_switches_off {G : Type}
    (build : channel -> M G (list string)) : Prop :=
  forall ch v g,
    ch_commercials ch = Some v -> v <> JBool false ->
    build ch g = build (set_commercials ch None) g.



(** The table with one channel, ["tv"]. *)
Definition table (files : list string) : gmap string (list string) :=
  {[ "tv" := files ]}.

Abbreviation fake_now_playing :=
  (get_now_playing Fake.fake_ffprobe Fake.fake_float Fake.fake_strftime).



(** ** The rest of app.py: [get_next_show] and the routes *)

Module Posix.

Fixpoint has_slash (p : string) : bool :=
  match p with
  | EmptyString => false
  | String c p' => Ascii.eqb c "/" || has_slash p'
  end.

(** [os.path.basename(p)] of [posixpath], [p[p.rfind("/") + 1:]]: what
    follows the last slash. *)
Fixpoint basename (p : string) : string :=
  match p with
  | EmptyString => EmptyString
  | String c p' => if has_slash p then basename p' else p
  end.

(** The characters before the first one that [stop] holds for, and the
    list from that character on. *)
Fixpoint take_until (stop : ascii -> bool) (l : list ascii) : list ascii :=
  match l with
  | [] => []
  | c :: l' => if stop c then [] else c :: take_until stop l'
  end.

Fixpoint drop_until (stop : ascii -> bool) (l : list ascii) : list ascii :=
  match l with
  | [] => []
  | c :: l' => if stop c then l else drop_until stop l'
  end.

(** [os.path.splitext(p)] of [posixpath]: the extension starts at the
    last dot, when that dot comes after the last slash and some
    character between the two is not a dot; otherwise there is none.
    The search runs over the reversed path. *)
Definition splitext (p : string) : string * string :=
  let is_mark (c : ascii) := Ascii.eqb c "." || Ascii.eqb c "/" in
  let r := rev (list_ascii_of_string p) in
  match drop_until is_mark r with
  | c :: rest =>
      if Ascii.eqb c "."
         && existsb (fun x => negb (Ascii.eqb x "."))
              (take_until (fun x => Ascii.eqb x "/") rest)
      then (string_of_list_ascii (rev rest),
            string_of_list_ascii (rev (take_until is_mark r ++ [c])))
      else (p, EmptyString)
  | [] => (p, EmptyString)
  end.

End Posix.

(** [l.index(x)]: the first position that holds [x]; [ValueError] when
    there is none. *)
Fixpoint list_index (x : string) (l : list string) : res nat :=
  match l with
  | [] => Raise ValueError
  | y :: l' =>
      if String.eqb y x then Ok O
      else try i <- list_index x l'; Ok (S i)
  end.

(** The truth value of [f] in [if f], for [f] a string or [None]. *)
Definition str_truthy (f : option string) : bool :=
  match f with
  | Some s => negb (String.eqb s "")
  | None => false
  end.

Section NextShow.
Variable fs : string -> option (list string).

(** *** [get_next_show]

    The handler is [except ValueError]: any other exception passes. *)
Definition get_next_show (ch : channel) (current_file : string)
  : res (option string) :=
  try files <- get_channel_files fs ch;
  match files with
  | [] => Ok None
  | _ :: _ =>
      try_except
        (try idx <- list_index current_file files;
         try next <- Py.index files ((idx + 1) mod length files)%nat;
         Ok (Some next))
        (fun e =>
           match e with
           | ValueError => try first <- Py.index files 0; Ok (Some first)
           | _ => Raise e
           end)
  end.

End NextShow.

(** *** Dictionaries and [in] on JSON values

    A dictionary is the list of its items, with every key once. *)

Fixpoint dict_get (l : list (string * json)) (key : string) : option json :=
  match l with
  | [] => None
  | (k, v) :: l' => if String.eqb k key then Some v else dict_get l' key
  end.

(** [d[key] = v]: the value of a key that is there is replaced where it
    stands; a new key goes to the end. *)
Fixpoint dict_set (l : list (string * json)) (key : string) (v : json)
  : list (string * json) :=
  match l with
  | [] => [(key, v)]
  | (k, w) :: l' =>
      if String.eqb k key then (k, v) :: l' else (k, w) :: dict_set l' key v
  end.

(** [key in s] for two strings: [key] occurs in [s]. *)
Fixpoint is_substring (key s : string) : bool :=
  String.prefix key s
  || match s with
     | EmptyString => false
     | String _ s' => is_substring key s'
     end.

(** [key in data] for a string [key]: a key of a dictionary, a part of a
    string, an element of a list; [None] stands for the [TypeError] on
    any other value. *)
Definition py_in (key : string) (data : json) : option bool :=
  match data with
  | JObj l => Some (match dict_get l key with Some _ => true | None => false end)
  | JStr s => Some (is_substring key s)
  | JArr l =>
      Some (existsb (fun v => match v with
                              | JStr s => String.eqb s key
                              | _ => false
                              end) l)
  | _ => None
  end.

Section Metadata.

(** The [stdout] of the second [ffprobe] run, the one that prints JSON,
    or the exception [subprocess.run] raises. *)
Variable ffprobe_json : string -> res string.

(** [json.loads(s)]; [None] when it raises. *)
Variable json_loads : string -> option json.

(** The body of the [try] of [get_file_metadata], from the output of
    the probe on; [None] when an exception leaves it. *)
Definition metadata_of_stdout (stdout : string) : option json :=
  match json_loads stdout with
  | Some (JObj top) =>
      let data := default (JObj []) (dict_get top "format") in
      match py_in "filename" data with
      | Some true =>
          match data with
          | JObj l =>
              match dict_get l "filename" with
              | Some (JStr filename) =>
                  let base := strip (Posix.basename filename) in
                  let name := (Posix.splitext base).1 in
                  Some (JObj (dict_set l "filename" (JStr name)))
              | _ => None
              end
          | _ => None
          end
      | Some false => Some data
      | None => None
      end
  | _ => None
  end.

(** *** [get_file_metadata] *)
Definition get_file_metadata (filepath : string) : json :=
  match ffprobe_json filepath with
  | Ok stdout => default (JObj []) (metadata_of_stdout stdout)
  | Raise e => JObj []
  end.

End Metadata.

Module Routes.

(** What a view function does: it returns a body, it calls
    [abort(status)], or an exception leaves it. *)
Inductive response (A : Type) : Type :=
| Body (a : A)
| Abort (status : Z)
| Crash (e : exn).
Arguments Body {A} a.
Arguments Abort {A} status.
Arguments Crash {A} e.

(** An entry of the list [index] hands to its template. *)
Record row : Type := {
  row_id : string;
  row_name : string;
  row_file : string
}.

(** The dictionary [now] returns. *)
Record sync : Type := {
  sync_file : string;
  sync_offset : Z;
  sync_duration : Q;
  sync_next_file : option string;
  sync_next_time : option string
}.

(** The values [watch] hands to its template. *)
Record player : Type := {
  player_channel : channel;
  player_current_file : string;
  player_offset : Z;
  player_metadata : json;
  player_duration : Q;
  player_channels : list channel;
  player_next_file : option string;
  player_next_time : option string
}.

(** [next((c for c in CHANNELS if c["id"] == channel_id), None)]. *)
Definition find_channel (CHANNELS : list channel) (channel_id : string)
  : option channel :=
  List.find (fun c => String.eqb (ch_id c) channel_id) CHANNELS.

Section Views.
Variable ffprobe : string -> res string.
Variable float : string -> res Q.
Variable strftime_local : Q -> string.

(** [os.path.relpath(f, "media")]. *)
Variable relpath_media : string -> string.

Variable CHANNELS : list channel.
Variable PLAYLISTS : gmap string (list string).

(** [os.path.basename(f) if f else d]. *)
Definition basename_or {A} (f : option string) (some : string -> A) (d : A)
  : A :=
  match f with
  | Some p => if str_truthy f then some (Posix.basename p) else d
  | None => d
  end.

(** *** [index]

    The loop over [CHANNELS] from the channel number [k] on; [clock k]
    is the reading of the clock in the call for channel [k].  The list
    is what the template receives as [channels]. *)
Fixpoint index_from (cs : list channel) (k : nat) (clock : nat -> Q)
  : res (list row) :=
  match cs with
  | [] => Ok []
  | c :: cs' =>
      try r <- get_now_playing ffprobe float strftime_local PLAYLISTS c
                 (clock k);
      let '(f, offset, next_file, next_time) := r in
      let entry := {| row_id := ch_id c; row_name := ch_name c;
                      row_file := basename_or f (fun b => b) "N/A" |} in
      try rest <- index_from cs' (S k) clock;
      Ok (entry :: rest)
  end.

Definition index (clock : nat -> Q) : response (list row) :=
  match index_from CHANNELS 0 clock with
  | Ok rows => Body rows
  | Raise e => Crash e
  end.

(** *** [now] *)
Definition now (channel_id : string) (t : Q) : response sync :=
  match find_channel CHANNELS channel_id with
  | None => Abort 404
  | Some channel =>
      match get_now_playing ffprobe float strftime_local PLAYLISTS channel t
      with
      | Raise e => Crash e
      | Ok (f, offset, next_file, next_time) =>
          match f with
          | Some p =>
              if str_truthy f then
                match get_duration ffprobe float p with
                | Raise e => Crash e
                | Ok duration =>
                    Body {| sync_file := relpath_media p;
                            sync_offset := offset;
                            sync_duration := duration;
                            sync_next_file :=
                              basename_or next_file Some None;
                            sync_next_time := next_time |}
                end
              else Abort 404
          | None => Abort 404
          end
      end
  end.

(** *** [watch] *)
Variable ffprobe_json : string -> res string.
Variable json_loads : string -> option json.

Definition watch (channel_id : string) (t : Q) : response player :=
  match find_channel CHANNELS channel_id with
  | None => Abort 404
  | Some channel =>
      match get_now_playing ffprobe float strftime_local PLAYLISTS channel t
      with
      | Raise e => Crash e
      | Ok (f, offset, next_file, next_time) =>
          match f with
          | Some p =>
              if str_truthy f then
                let relpath := relpath_media p in
                let metadata := get_file_metadata ffprobe_json json_loads p in
                match get_duration ffprobe float p with
                | Raise e => Crash e
                | Ok duration =>
                    Body {| player_channel := channel;
                            player_current_file := relpath;
                            player_offset := offset;
                            player_metadata := metadata;
                            player_duration := duration;
                            player_channels := CHANNELS;
                            player_next_file :=
                              basename_or next_file Some None;
                            player_next_time := next_time |}
                end
              else Abort 404
          | None => Abort 404
          end
      end
  end.

End Views.

End Routes.

(** Two more directory trees: [Fake.fake_fs] with the entries of
    ["media/tv"] listed in another order, and a tree without the shared
    filler folder. *)
Definition fs_other_order (p : string) : option (list string) :=
  if String.eqb p "media/tv" then Some ["a.MP4"; "b.mp4"; "notes.txt"]
  else Fake.fake_fs p.

Definition fs_no_ads (p : string) : option (list string) :=
  if String.eqb p "media/commercials" then None else Fake.fake_fs p.

(** Channels and a table for the concrete world: a sequential channel
    without filler, a channel with an empty folder, and a channel with
    the identifier of the first on the empty folder. *)
Definition tv_plain : channel := Fake.tv None (Some (JBool false)).

Definition docs : channel :=
  {| ch_id := "docs"; ch_name := "Docs"; ch_path := "media/docs";
     ch_rotation := None; ch_commercials := Some (JBool false) |}.

Definition tv_on_docs : channel :=
  {| ch_id := "tv"; ch_name := "TV"; ch_path := "media/docs";
     ch_rotation := None; ch_commercials := Some (JBool false) |}.

Definition tv_files : list string := ["media/tv/a.MP4"; "media/tv/b.mp4"].

(** The table after startup on [[tv_plain; docs]]. *)
Definition fake_table : gmap string (list string) :=
  <["docs" := []]> (<["tv" := tv_files]> ∅).


(** A probe that prints JSON, and [json.loads] on what it prints. *)
Definition fake_ffprobe_json (filepath : string) : res string :=
  if String.eqb filepath "media/tv/a.MP4" then Ok "{format}"
  else Raise OSError.

Definition fake_format : list (string * json) :=
  [("filename", JStr "media/tv/ a.b.MP4"); ("format_name", JStr "mov,mp4");
   ("duration", JStr "600.000000")].

Definition fake_json_loads (s : string) : option json :=
  if String.eqb s "{format}" then Some (JObj [("format", JObj fake_format)])
  else None.

(** What an entry of the list of [index] shows for a channel: its
    identifier and name, and "N/A" for an empty playlist or else the
    base name of a file of the playlist. *)
Definition row_shows (PLAYLISTS : gmap string (list string)) (c : channel)
    (r : Routes.row) : Prop :=
  Routes.row_id r = ch_id c /\ Routes.row_name r = ch_name c
  /\ (Routes.row_file r = "N/A" <-> default [] (PLAYLISTS !! ch_id c) = [])
  /\ (Routes.row_file r <> "N/A" ->
      Posix.has_slash (Routes.row_file r) = false
      /\ exists p, In p (default [] (PLAYLISTS !! ch_id c))
                   /\ Routes.row_file r = Posix.basename p).

(** *** Where the model computes what Python computes

    The model adds and subtracts rationals exactly and handles strings
    byte by byte.  The predicates below mark the inputs on which this is
    what Python does. *)

(** [2 ^ m]. *)
Definition pow2 (m : nat) : Q := inject_Z (2 ^ Z.of_nat m).

(** [x] is a whole multiple of [2 ^ -m]. *)
Definition on_grid (m : nat) (x : Q) : bool :=
  Qeq_bool (x * pow2 m) (inject_Z (Qfloor (x * pow2 m))).

(** Durations that floats add and subtract without rounding: none is
    negative, all are whole multiples of one [2 ^ -m], and the total,
    counted in that unit, is at most [2 ^ 53].  Whole seconds are the
    case [m = 0].  Every sum of some of them and every difference the
    loop of [get_now_playing] forms is then a double (see
    [float_exact_prefix] and [float_exact_offset]), so rounding to the
    nearest double, with or without compensation in [sum], returns the
    exact value; in particular no duration is [nan] or infinite.  The
    playlist is also no longer than [START_TIME] seconds, some 55
    years, which keeps the time of the next start inside what
    [time.localtime] accepts. *)
Definition float_exact (m : nat) (durations : list Q) : bool :=
  (m <=? 1022)%nat
  && forallb (fun d => Qle_bool 0 d && on_grid m d) durations
  && Qle_bool (sum durations * pow2 m) (inject_Z (2 ^ 53))
  && Qle_bool (sum durations) START_TIME.


(** [r] is a value, not an exception. *)
Definition returns {A} (r : res A) : bool :=
  match r with Ok _ => true | Raise _ => false end.

(** A rational that is a double: a whole number of at most 53 bits
    times a power of two that is not below [2 ^ -1074]. *)
Definition is_double (x : Q) : Prop :=
  exists (z : Z) (m : nat),
    (m <= 1074)%nat /\ Z.abs z <= 2 ^ 53 /\ (x * pow2 m == inject_Z z)%Q.

(** A name of ASCII characters only: on such names the [strip] and
    [lower] of the model are the ones of Python. *)
Definition ascii_name (s : string) : bool :=
  forallb (fun c => (nat_of_ascii c <? 128)%nat) (list_ascii_of_string s).

(** ** Running the model *)

Example lower_ex : lower "Ep01.MKV" = "ep01.mkv".
Proof. reflexivity. Qed.

Example endswith_ex : endswith "ep01.mkv" ".mkv" = true /\ endswith "mkv" ".mkv" = false.
Proof. split; reflexivity. Qed.

Example strip_ex : strip "  a b.mp4 " = "a b.mp4".
Proof. reflexivity. Qed.

Example int_ex : int (-7 # 2) = -3 /\ int (7 # 2) = 3.
Proof. split; reflexivity. Qed.

Example sorted_ex : sorted ["b"; "a"; "B"; "ab"] = ["B"; "a"; "ab"; "b"].
Proof. reflexivity. Qed.

Example path_join_ex :
  path_join "media/simpsons" "e1.mp4" = "media/simpsons/e1.mp4"
  /\ path_join "media/" "e1.mp4" = "media/e1.mp4".
Proof. split; reflexivity. Qed.

Example get_duration_ex :
  get_duration Fake.fake_ffprobe Fake.fake_float "media/tv/c.mp4" = Ok (1201 # 2)
  /\ get_duration Fake.fake_ffprobe Fake.fake_float "media/tv/n.mp4" = Ok (1320 # 1)
  /\ get_duration Fake.fake_ffprobe Fake.fake_float "elsewhere.mp4" = Ok (1320 # 1).
Proof. repeat split; reflexivity. Qed.

Example get_channel_files_ex :
  get_channel_files Fake.fake_fs (Fake.tv None None)
  = Ok ["media/tv/a.MP4"; "media/tv/b.mp4"].
Proof. reflexivity. Qed.

Example build_playlist_ex :
  build_playlist Fake.fake_md5_int Fake.fake_fs (Fake.tv None None) 1%nat
  = Ok (["media/tv/a.MP4"; "media/commercials/ad2.mp4"; "media/tv/b.mp4"], 5%nat).
Proof. vm_compute. reflexivity. Qed.

Example build_playlist_random_ex :
  build_playlist Fake.fake_md5_int Fake.fake_fs
    (Fake.tv (Some (JStr "random")) (Some (JBool false))) 1%nat
  = Ok (["media/tv/b.mp4"; "media/tv/a.MP4"], 1%nat).
Proof. vm_compute. reflexivity. Qed.

(** ** Facts about the runtime *)

Section PyFacts.

Lemma int_inject_Z (z : Z) : int (inject_Z z) = z.
Proof. unfold int. simpl. apply Z.quot_1_r. Qed.

Lemma int_nonneg_floor (x : Q) : (0 <= x)%Q -> int x = Qfloor x.
Proof.
  destruct x as [a b]. unfold Qle, int, Qfloor. simpl. intros Ha.
  apply Z.quot_div_nonneg; lia.
Qed.

Lemma int_opp (x : Q) : int (- x) = - int x.
Proof. destruct x as [a b]. unfold int. simpl. apply Z.quot_opp_l. lia. Qed.

(** [int] does not depend on how the rational is written. *)
Lemma int_Qeq (x y : Q) : (x == y)%Q -> int x = int y.
Proof.
  intros Hxy. destruct (Qlt_le_dec x 0) as [Hneg | Hpos].
  - assert (Hx : (0 <= - x)%Q) by lra.
    assert (Hy : (0 <= - y)%Q) by lra.
    assert (E : int (- x) = int (- y)).
    { rewrite !int_nonneg_floor by assumption. now rewrite Hxy. }
    rewrite !int_opp in E. lia.
  - rewrite !int_nonneg_floor by lra. now rewrite Hxy.
Qed.



Lemma lt_true (x y : Q) : lt x y = true <-> (x < y)%Q.
Proof.
  unfold lt. rewrite negb_true_iff, <- not_true_iff_false, Qle_bool_iff.
  split; [apply Qnot_le_lt | apply Qlt_not_le].
Qed.

Lemma lt_false (x y : Q) : lt x y = false <-> (y <= x)%Q.
Proof. unfold lt. rewrite negb_false_iff. apply Qle_bool_iff. Qed.

Lemma fold_left_Qplus (l : list Q) (a : Q) :
  (fold_left Qplus l a == a + fold_left Qplus l (inject_Z 0))%Q.
Proof.
  revert a. induction l as [| d l IH]; intros a; simpl.
  - unfold inject_Z. lra.
  - rewrite (IH (a + d)%Q), (IH (inject_Z 0 + d)%Q). unfold inject_Z. lra.
Qed.

Lemma sum_nil : (sum [] == 0)%Q.
Proof. reflexivity. Qed.

Lemma sum_cons (d : Q) (l : list Q) : (sum (d :: l) == d + sum l)%Q.
Proof.
  unfold sum. simpl. rewrite fold_left_Qplus. unfold inject_Z. lra.
Qed.


Lemma mod_zero (a : Z) : mod_ a 0 = Raise ZeroDivisionError.
Proof. reflexivity. Qed.

End PyFacts.

(** ** Facts about [sorted] and [shuffle] *)

Section SortFacts.

Lemma insert_sorted_perm (x : string) (l : list string) :
  Permutation (x :: l) (insert_sorted x l).
Proof.
  induction l as [| y l IH]; simpl; [reflexivity|].
  destruct (String.leb x y); [reflexivity|].
  rewrite perm_swap. now apply perm_skip.
Qed.

Lemma sorted_perm (l : list string) : Permutation l (sorted l).
Proof.
  induction l as [| x l IH]; simpl; [reflexivity|].
  rewrite <- insert_sorted_perm. now apply perm_skip.
Qed.

Lemma insert_sorted_hd (x y : string) (l : list string) :
  str_le y x -> HdRel str_le y l -> HdRel str_le y (insert_sorted x l).
Proof.
  intros Hyx Hl. destruct l as [| z l]; simpl.
  - now constructor.
  - destruct (String.leb x z); constructor; [assumption|].
    now inversion Hl.
Qed.

Lemma insert_sorted_sorted (x : string) (l : list string) :
  Sorted str_le l -> Sorted str_le (insert_sorted x l).
Proof.
  induction 1 as [| y l Hl IH Hhd]; simpl.
  - repeat constructor.
  - destruct (String.leb x y) eqn:Hxy.
    + constructor; [now constructor | now constructor].
    + constructor; [exact IH|].
      apply insert_sorted_hd; [|exact Hhd].
      destruct (String.leb_total x y) as [E | E]; [congruence | exact E].
Qed.

Lemma sorted_sorted (l : list string) : Sorted str_le (sorted l).
Proof.
  induction l as [| x l IH]; simpl; [constructor|].
  now apply insert_sorted_sorted.
Qed.

End SortFacts.

Section ShuffleFacts.
Context {G : Type} `{Random G} {A : Type}.

Lemma insert_perm_delete (l : list A) (i : nat) (a b : A) :
  l !! i = Some a -> Permutation (<[i := b]> l) (b :: delete i l).
Proof.
  revert i. induction l as [| h t IH]; intros [| i] Hi; simpl in *;
    try discriminate.
  - reflexivity.
  - rewrite (IH i Hi). apply perm_swap.
Qed.

Lemma swap_perm (x : list A) (i j : nat) : Permutation (swap x i j) x.
Proof.
  unfold swap. destruct (x !! i) as [a |] eqn:Hi; [| reflexivity].
  destruct (x !! j) as [b |] eqn:Hj; [| reflexivity].
  revert i j Hi Hj. induction x as [| h t IH]; intros i j Hi Hj.
  - discriminate.
  - destruct i as [| i], j as [| j]; simpl in *.
    + injection Hi as ->. reflexivity.
    + injection Hi as ->. rewrite (insert_perm_delete t j b a Hj).
      rewrite perm_swap. apply perm_skip. symmetry.
      now apply delete_Permutation.
    + injection Hj as ->. rewrite (insert_perm_delete t i a b Hi).
      rewrite perm_swap. apply perm_skip. symmetry.
      now apply delete_Permutation.
    + apply perm_skip. now apply IH.
Qed.

Lemma shuffle_from_perm (i : nat) (x : list A) (g : G) :
  Permutation (shuffle_from i x g).1 x.
Proof.
  revert x g. induction i as [| i IH]; intros x g; simpl; [reflexivity|].
  destruct (randbelow g (S (i + 1))) as [j g']. rewrite IH.
  apply swap_perm.
Qed.

Lemma shuffle_perm (x : list A) (g : G) : Permutation (shuffle x g).1 x.
Proof. apply shuffle_from_perm. Qed.

(** Every index the loop of [shuffle] touches lies inside the list, so
    no swap of the loop falls back to leaving the list as it is. *)
Lemma shuffle_swap_in_range (x : list A) (i : nat) (g : G) :
  (S i < length x)%nat ->
  let j := (randbelow g (S i + 1)).1 in
  is_Some (x !! S i) /\ is_Some (x !! j).
Proof.
  intros Hi j. split; apply lookup_lt_is_Some; [lia|].
  pose proof (randbelow_lt g (S i + 1)%nat ltac:(lia)). subst j. lia.
Qed.

End ShuffleFacts.

(** ** Durations that floats handle exactly *)

Section ExactFacts.

Lemma pow2_pos (m : nat) : (0 < pow2 m)%Q.
Proof.
  unfold pow2. change 0%Q with (inject_Z 0). rewrite <- Zlt_Qlt.
  apply Z.pow_pos_nonneg; lia.
Qed.

Lemma on_grid_iff (m : nat) (x : Q) :
  on_grid m x = true <-> exists z : Z, (x * pow2 m == inject_Z z)%Q.
Proof.
  unfold on_grid. rewrite Qeq_bool_iff. split.
  - intros Hx. now exists (Qfloor (x * pow2 m)).
  - intros [z Hz]. now rewrite Hz, Qfloor_Z.
Qed.

Lemma grid_plus (m : nat) (x y : Q) :
  on_grid m x = true -> on_grid m y = true -> on_grid m (x + y) = true.
Proof.
  rewrite !on_grid_iff. intros [a Ha] [b Hb]. exists (a + b).
  rewrite inject_Z_plus, <- Ha, <- Hb. ring.
Qed.

Lemma grid_minus (m : nat) (x y : Q) :
  on_grid m x = true -> on_grid m y = true -> on_grid m (x - y) = true.
Proof.
  rewrite !on_grid_iff. intros [a Ha] [b Hb]. exists (a - b).
  unfold Z.sub. rewrite inject_Z_plus, inject_Z_opp, <- Ha, <- Hb. ring.
Qed.

Lemma grid_whole (m : nat) (n : Z) : on_grid m (inject_Z n) = true.
Proof.
  apply on_grid_iff. exists (n * 2 ^ Z.of_nat m). unfold pow2.
  now rewrite inject_Z_mult.
Qed.

Lemma on_grid_Qeq (m : nat) (x y : Q) :
  (x == y)%Q -> on_grid m x = true -> on_grid m y = true.
Proof.
  rewrite !on_grid_iff. intros Hxy [z Hz]. exists z. now rewrite <- Hxy.
Qed.

(** What [float_exact] says, part by part. *)
Lemma float_exact_parts (m : nat) (ds : list Q) :
  float_exact m ds = true ->
  (m <= 1022)%nat
  /\ Forall (fun d => (0 <= d)%Q /\ on_grid m d = true) ds
  /\ (sum ds * pow2 m <= inject_Z (2 ^ 53))%Q.
Proof.
  unfold float_exact. rewrite !andb_true_iff.
  intros [[[Hm Hall] Htotal] _]. split; [now apply Nat.leb_le|].
  split; [| now apply Qle_bool_iff].
  rewrite forallb_forall in Hall. apply List.Forall_forall. intros d Hd.
  specialize (Hall d Hd). apply andb_true_iff in Hall as [H0 Hg].
  split; [now apply Qle_bool_iff | exact Hg].
Qed.

Lemma sum_take_bounds (ds : list Q) :
  Forall (fun d => (0 <= d)%Q) ds ->
  forall k, (0 <= sum (take k ds) /\ sum (take k ds) <= sum ds)%Q.
Proof.
  induction 1 as [| d ds Hd Hds IH]; intros k.
  - destruct k; simpl; rewrite sum_nil; lra.
  - destruct k as [| k]; cbn [take].
    + rewrite sum_nil, sum_cons. destruct (IH 0%nat) as [_ Hle].
      cbn [take] in Hle. rewrite sum_nil in Hle. lra.
    + rewrite !sum_cons. destruct (IH k). lra.
Qed.

Lemma sum_take_grid (m : nat) (ds : list Q) :
  Forall (fun d => on_grid m d = true) ds ->
  forall k, on_grid m (sum (take k ds)) = true.
Proof.
  induction 1 as [| d ds Hd Hds IH]; intros k.
  - destruct k; simpl; apply (grid_whole m 0).
  - destruct k as [| k]; cbn [take]; [apply (grid_whole m 0)|].
    apply on_grid_Qeq with (d + sum (take k ds))%Q;
      [now rewrite sum_cons | now apply grid_plus].
Qed.

(** A value on the grid between zero and the total is a double. *)
Lemma float_exact_value (m : nat) (ds : list Q) (x : Q) :
  float_exact m ds = true ->
  on_grid m x = true -> (0 <= x)%Q -> (x <= sum ds)%Q -> is_double x.
Proof.
  intros Hexact Hgrid H0 Hle.
  destruct (float_exact_parts m ds Hexact) as (Hm & _ & Htotal).
  apply on_grid_iff in Hgrid as [z Hz]. exists z, m.
  split; [lia|]. split; [| exact Hz].
  pose proof (pow2_pos m) as Hp.
  assert (Hz0 : (0 <= inject_Z z)%Q).
  { rewrite <- Hz. apply Qmult_le_0_compat; [exact H0 | lra]. }
  assert (Hz1 : (inject_Z z <= inject_Z (2 ^ 53))%Q).
  { rewrite <- Hz. apply Qle_trans with (sum ds * pow2 m)%Q;
      [| exact Htotal].
    apply Qmult_le_compat_r; [exact Hle | lra]. }
  change 0%Q with (inject_Z 0) in Hz0.
  rewrite <- Zle_Qle in Hz0, Hz1. lia.
Qed.

(** Every sum the left-to-right addition of the durations passes
    through is a double. *)
Lemma float_exact_prefix (m : nat) (ds : list Q) :
  float_exact m ds = true -> forall k, is_double (sum (take k ds)).
Proof.
  intros Hexact k.
  destruct (float_exact_parts m ds Hexact) as (_ & Hall & _).
  assert (Hpos : Forall (fun d => (0 <= d)%Q) ds)
    by (eapply List.Forall_impl; [| exact Hall]; now intros d [Hd _]).
  assert (Hgrid : Forall (fun d => on_grid m d = true) ds)
    by (eapply List.Forall_impl; [| exact Hall]; now intros d [_ Hd]).
  destruct (sum_take_bounds ds Hpos k) as [H0 Hle].
  apply (float_exact_value m ds); try assumption.
  now apply sum_take_grid.
Qed.

(** Every offset the loop of [get_now_playing] passes through, the
    elapsed whole seconds less the durations of some first files while
    that is not negative, is a double; and so is the time left in a
    file, a duration less such an offset. *)
Lemma float_exact_offset (m : nat) (ds : list Q) (elapsed : Z) (k : nat) :
  float_exact m ds = true ->
  0 <= elapsed -> (inject_Z elapsed <= sum ds)%Q ->
  (0 <= inject_Z elapsed - sum (take k ds))%Q ->
  is_double (inject_Z elapsed - sum (take k ds))
  /\ forall d, ds !! k = Some d ->
               (inject_Z elapsed - sum (take k ds) < d)%Q ->
               is_double (d - (inject_Z elapsed - sum (take k ds))).
Proof.
  intros Hexact Hel Hle Hpos.
  destruct (float_exact_parts m ds Hexact) as (_ & Hall & _).
  assert (Hnn : Forall (fun d => (0 <= d)%Q) ds)
    by (eapply List.Forall_impl; [| exact Hall]; now intros d [Hd _]).
  assert (Hgrid : Forall (fun d => on_grid m d = true) ds)
    by (eapply List.Forall_impl; [| exact Hall]; now intros d [_ Hd]).
  destruct (sum_take_bounds ds Hnn k) as [H0 _].
  assert (Hog : on_grid m (inject_Z elapsed - sum (take k ds)) = true)
    by (apply grid_minus; [apply grid_whole | now apply sum_take_grid]).
  split.
  - apply (float_exact_value m ds); try assumption. lra.
  - intros d Hd Hlt.
    assert (Hin : In d ds)
      by (apply list_elem_of_In; eapply list_elem_of_lookup_2; eauto).
    rewrite List.Forall_forall in Hnn, Hgrid.
    apply (float_exact_value m ds); try assumption.
    + apply grid_minus; [now apply Hgrid | exact Hog].
    + lra.
    + destruct (sum_take_bounds ds (proj2 (List.Forall_forall _ _) Hnn) (S k))
        as [_ Hsk].
      rewrite (take_S_r ds k d Hd) in Hsk.
      assert (Hsnoc : (sum (take k ds ++ [d]) == sum (take k ds) + d)%Q).
      { clear. induction (take k ds) as [| x l IH]; simpl app.
        - rewrite sum_cons, sum_nil. lra.
        - rewrite !sum_cons, IH. lra. }
      rewrite Hsnoc in Hsk. lra.
Qed.

End ExactFacts.

(** ** The duration resolver *)

Section Resolver.
Variable ffprobe : string -> res string.
Variable float : string -> res Q.

Lemma get_duration_total (filepath : string) :
  exists d, get_duration ffprobe float filepath = Ok d.
Proof.
  unfold get_duration.
  destruct (ffprobe filepath) as [out | e]; simpl; [| eauto].
  destruct (float (strip out)) as [x | e]; simpl; eauto.
Qed.

Lemma durations_total (files : list string) :
  exists durations,
    mapM (get_duration ffprobe float) files = Ok durations
    /\ length durations = length files.
Proof.
  induction files as [| f files [ds [IH Hlen]]].
  - exists []. split; reflexivity.
  - destruct (get_duration_total f) as [d Hd].
    exists (d :: ds). cbn [mapM]. rewrite Hd, IH. simpl.
    split; [reflexivity | now rewrite Hlen].
Qed.

(** C8. [get_duration] never raises.  When running the probe raises,
    or its output is not a number for [float], the result is the
    fallback of 22 * 60 = 1320 seconds; when [float] reads a number
    from the stripped output, the result is that number. *)
Theorem get_duration_fallback (filepath : string) :
  (exists d, get_duration ffprobe float filepath = Ok d)
  /\ (forall e, ffprobe filepath = Raise e ->
        get_duration ffprobe float filepath = Ok (inject_Z 1320))
  /\ (forall out e, ffprobe filepath = Ok out ->
        float (strip out) = Raise e ->
        get_duration ffprobe float filepath = Ok (inject_Z 1320))
  /\ (forall out x, ffprobe filepath = Ok out ->
        float (strip out) = Ok x ->
        get_duration ffprobe float filepath = Ok x).
Proof.
  split; [apply get_duration_total|]. unfold get_duration. repeat split.
  - intros e ->. reflexivity.
  - intros out e -> Hf. simpl. now rewrite Hf.
  - intros out x -> Hf. simpl. now rewrite Hf.
Qed.

End Resolver.

(** ** The deterministic shuffler and the playlist builder *)

Section Builder.
Context {G : Type} `{Random G}.
Variable md5_int : string -> Z.
Variable fs : string -> option (list string).

Lemma get_channel_files_total (ch : channel) :
  exists files, get_channel_files fs ch = Ok files.
Proof.
  unfold get_channel_files, path_exists, listdir.
  destruct (fs (ch_path ch)); simpl; eauto.
Qed.

Lemma scan_commercials_total (p : string) :
  exists pool, scan_commercials fs p = Ok pool.
Proof.
  unfold scan_commercials, path_exists, listdir.
  destruct (fs p); simpl; eauto.
Qed.

(** C5. The output of [stable_shuffle] depends on the list and the seed
    only: whatever state the shared generator is in at two calls, both
    return the same list and leave that state as it was; and the list
    returned is a permutation of the input. *)
Theorem stable_shuffle_deterministic (files : list string) (seed : string)
    (g1 g2 : G) :
  exists out,
    stable_shuffle md5_int files seed g1 = Ok (out, g1)
    /\ stable_shuffle md5_int files seed g2 = Ok (out, g2)
    /\ Permutation files out.
Proof.
  unfold stable_shuffle.
  pose proof (shuffle_perm files (seeded (md5_int seed))) as Hperm.
  destruct (shuffle files (seeded (md5_int seed))) as [out rng].
  exists out. repeat split. symmetry. exact Hperm.
Qed.

Lemma ordered_files_perm (ch : channel) (files : list string) :
  Permutation files (ordered_files md5_int ch files).
Proof.
  unfold ordered_files. destruct (eq_str (ch_rotation ch) "random").
  - symmetry. apply shuffle_perm.
  - apply sorted_perm.
Qed.

(** [build_playlist], with its two steps of ordering unfolded. *)
Lemma build_playlist_steps (ch : channel) (g : G) :
  build_playlist md5_int fs ch g
  = match get_channel_files fs ch with
    | Raise e => Raise e
    | Ok files =>
        if filler_on ch then
          match scan_commercials fs (path_join "media" "commercials") with
          | Raise e => Raise e
          | Ok pool => interleave pool (ordered_files md5_int ch files) [] g
          end
        else Ok (ordered_files md5_int ch files, g)
    end.
Proof.
  unfold build_playlist, bindM, lift, filler_on, ordered_files.
  destruct (get_channel_files fs ch) as [files | e]; [| reflexivity].
  unfold stable_shuffle, ret.
  destruct (eq_str (ch_rotation ch) "random").
  - destruct (shuffle files (seeded (md5_int (ch_id ch)))) as [out rng].
    simpl. destruct (truthy _); [| reflexivity].
    now destruct (scan_commercials fs _).
  - destruct (truthy _); [| reflexivity].
    now destruct (scan_commercials fs _).
Qed.

(** C6. With the filler switched off, [build_playlist] returns the
    scanned main files in the order of step 2 and nothing else: the
    result of [stable_shuffle] seeded with the channel identifier when
    the rotation is "random", the sorted list otherwise.  It is a
    permutation of the scanned files, and the shared generator is not
    used. *)
Theorem build_playlist_no_filler (ch : channel) (files : list string)
    (g : G) :
  get_channel_files fs ch = Ok files ->
  filler_on ch = false ->
  exists out,
    build_playlist md5_int fs ch g = Ok (out, g)
    /\ Permutation files out
    /\ (if eq_str (ch_rotation ch) "random"
        then stable_shuffle md5_int files (ch_id ch) g = Ok (out, g)
        else out = sorted files /\ Sorted str_le out).
Proof.
  intros Hscan Hoff. exists (ordered_files md5_int ch files).
  rewrite build_playlist_steps, Hscan, Hoff.
  split; [reflexivity|]. split; [apply ordered_files_perm|].
  unfold ordered_files, stable_shuffle.
  destruct (eq_str (ch_rotation ch) "random").
  - now destruct (shuffle files (seeded (md5_int (ch_id ch)))).
  - split; [reflexivity | apply sorted_sorted].
Qed.

(** One draw of [randint(0, 2)] lies between 0 and 2. *)
Lemma randint_0_2 (g : G) : 0 <= (randint 0 2 g).1 <= 2.
Proof.
  unfold randint. change (Z.to_nat (2 - 0 + 1)) with 3%nat.
  pose proof (randbelow_lt g 3 ltac:(lia)) as Hlt.
  destruct (randbelow g 3) as [r g']. simpl in *. lia.
Qed.

(** The loop of step 4 puts a block of fillers behind each file. *)
Lemma interleave_blocks (pool : list string) :
  pool <> [] ->
  forall files playlist g,
  exists blocks g',
    interleave pool files playlist g
    = Ok (playlist ++ with_fillers files blocks, g')
    /\ length blocks = length files
    /\ Forall (filler_block pool) blocks.
Proof.
  intros Hpool. induction files as [| ep files IH]; intros playlist g.
  - exists [], g. simpl. unfold ret, with_fillers. simpl.
    rewrite app_nil_r. repeat split. constructor.
  - destruct pool as [| p pool']; [congruence|].
    cbn [interleave]. set (pl := p :: pool') in *.
    unfold bindM at 1, draw.
    pose proof (randint_0_2 g) as Hnum.
    destruct (randint 0 2 g) as [num_ads g1]. simpl in Hnum.
    unfold bindM at 1, random_sample.
    set (k := Z.min num_ads (Z.of_nat (length pl))).
    assert (Hk : 0 <= k <= Z.of_nat (length pl)) by (subst k; lia).
    assert (Hk2 : (Z.to_nat k <= 2)%nat) by (subst k; lia).
    replace ((0 <=? k)%Z && (k <=? Z.of_nat (length pl))%Z) with true
      by (symmetry; apply andb_true_iff; split; apply Z.leb_le; lia).
    destruct (sample_spec g1 pl (Z.to_nat k) ltac:(lia))
      as (idxs & Hnd & Hlen & Hall).
    destruct (sample g1 pl (Z.to_nat k)) as [chosen g2]. simpl in Hall.
    destruct (IH ((playlist ++ [ep]) ++ chosen) g2)
      as (blocks & g' & Hrun & Hblocks & Hfill).
    exists (chosen :: blocks), g'. rewrite Hrun. split.
    + unfold with_fillers. simpl. now rewrite <- !app_assoc.
    + split; [simpl; now rewrite Hblocks|].
      constructor; [| exact Hfill]. split.
      * apply Forall2_length in Hall. lia.
      * now exists idxs.
Qed.

Lemma with_fillers_length (pool main : list string)
    (blocks : list (list string)) :
  length blocks = length main ->
  Forall (filler_block pool) blocks ->
  (length main <= length (with_fillers main blocks) <= 3 * length main)%nat.
Proof.
  revert blocks. unfold with_fillers.
  induction main as [| ep main IH]; intros [| b blocks] Hlen Hall;
    simpl in *; try discriminate; [lia|].
  inversion Hall as [| ? ? [Hb _] Hall']; subst.
  specialize (IH blocks ltac:(lia) Hall').
  rewrite length_app. lia.
Qed.

Lemma with_fillers_sublist (main : list string)
    (blocks : list (list string)) :
  length blocks = length main -> sublist main (with_fillers main blocks).
Proof.
  revert blocks. unfold with_fillers.
  induction main as [| ep main IH]; intros [| b blocks] Hlen;
    simpl in *; try discriminate; [constructor|].
  apply sublist_skip, sublist_inserts_l, IH. lia.
Qed.

(** C7. With the filler switched on and a pool of filler clips that is
    not empty, whatever the shared generator draws, the playlist is
    the ordered main files with a block of 0 to 2 filler clips right
    behind each of them, every block taken from pairwise distinct
    positions of the pool.  So its length lies between the number of
    main files and three times that number, and the main files occur
    in it in their order. *)
Theorem build_playlist_filler (ch : channel) (files pool : list string)
    (g : G) :
  get_channel_files fs ch = Ok files ->
  scan_commercials fs (path_join "media" "commercials") = Ok pool ->
  pool <> [] ->
  filler_on ch = true ->
  let main := ordered_files md5_int ch files in
  exists blocks g',
    build_playlist md5_int fs ch g = Ok (with_fillers main blocks, g')
    /\ length blocks = length main
    /\ Forall (filler_block pool) blocks
    /\ (length main <= length (with_fillers main blocks)
        <= 3 * length main)%nat
    /\ sublist main (with_fillers main blocks).
Proof.
  intros Hscan Hads Hpool Hon main.
  destruct (interleave_blocks pool Hpool main [] g)
    as (blocks & g' & Hrun & Hlen & Hfill).
  exists blocks, g'. rewrite build_playlist_steps, Hscan, Hon, Hads.
  fold main. rewrite Hrun. simpl. repeat split; try assumption.
  - now apply (with_fillers_length pool).
  - now apply (with_fillers_length pool).
  - now apply with_fillers_sublist.
Qed.

Lemma truthy_false (v : json) : truthy v = false <-> falsy v.
Proof.
  unfold falsy. split.
  - destruct v as [| b | n | x | s | l | l]; simpl; intros Hv.
    + now left.
    + right; left. now subst.
    + right; right; left. apply negb_false_iff, Z.eqb_eq in Hv. now subst.
    + right; right; right; left. exists x. split; [reflexivity|].
      now apply negb_false_iff, Qeq_bool_iff in Hv.
    + right; right; right; right; left.
      apply negb_false_iff, String.eqb_eq in Hv. now subst.
    + destruct l; [| discriminate]. tauto.
    + destruct l; [| discriminate]. tauto.
  - intros [-> | [-> | [-> | [(x & -> & Hx) | [-> | [-> | ->]]]]]];
      try reflexivity.
    simpl. apply negb_false_iff, Qeq_bool_iff, Hx.
Qed.

(** C10, as the code has it.  A channel without the [commercials] key
    is built exactly as one with ["commercials": true].  The filler is
    switched off exactly when the key is present with a value Python
    takes as false: [false], [null], [0], [0.0], the empty string, the
    empty array or the empty object; then the playlist is the ordered
    main files alone.  Otherwise the loop of step 4 runs. *)
Theorem filler_switch (ch : channel) :
  (ch_commercials ch = None ->
     build_playlist md5_int fs ch
     = build_playlist md5_int fs (set_commercials ch (Some (JBool true))))
  /\ (filler_on ch = false
      <-> exists v, ch_commercials ch = Some v /\ falsy v)
  /\ (forall files g,
        get_channel_files fs ch = Ok files ->
        build_playlist md5_int fs ch g
        = if filler_on ch then
            match scan_commercials fs (path_join "media" "commercials")
            with
            | Raise e => Raise e
            | Ok pool => interleave pool (ordered_files md5_int ch files) [] g
            end
          else Ok (ordered_files md5_int ch files, g)).
Proof.
  split; [| split].
  - intros Hnone. unfold build_playlist. destruct ch; simpl in *.
    now subst.
  - unfold filler_on. destruct (ch_commercials ch) as [v |]; simpl.
    + rewrite truthy_false. split; [eauto|].
      intros (v' & Hv & Hf). now injection Hv as ->.
    + split; [discriminate|]. intros (v & Hv & _). discriminate.
  - intros files g Hscan. now rewrite build_playlist_steps, Hscan.
Qed.

End Builder.

(** C10, counterexample: ["commercials": null] switches the filler off.
    With the key absent the generator state 1 gives one filler clip
    behind the first file; with [null] the playlist is the two main
    files. *)
Lemma filler_off_by_null :
  build_playlist Fake.fake_md5_int Fake.fake_fs
    (Fake.tv None (Some JNull)) 1%nat
  = Ok (["media/tv/a.MP4"; "media/tv/b.mp4"], 1%nat)
  /\ build_playlist Fake.fake_md5_int Fake.fake_fs (Fake.tv None None) 1%nat
     = Ok (["media/tv/a.MP4"; "media/commercials/ad2.mp4";
            "media/tv/b.mp4"], 5%nat)
  /\ ~ only_false_switches_off
         (build_playlist Fake.fake_md5_int Fake.fake_fs).
Proof.
  assert (E1 : build_playlist Fake.fake_md5_int Fake.fake_fs
                 (Fake.tv None (Some JNull)) 1%nat
               = Ok (["media/tv/a.MP4"; "media/tv/b.mp4"], 1%nat))
    by (vm_compute; reflexivity).
  assert (E2 : build_playlist Fake.fake_md5_int Fake.fake_fs
                 (Fake.tv None None) 1%nat
               = Ok (["media/tv/a.MP4"; "media/commercials/ad2.mp4";
                      "media/tv/b.mp4"], 5%nat))
    by (vm_compute; reflexivity).
  split; [exact E1|]. split; [exact E2|].
  intros Hclaim.
  specialize (Hclaim (Fake.tv None (Some JNull)) JNull 1%nat eq_refl
                ltac:(discriminate)).
  change (set_commercials (Fake.tv None (Some JNull)) None)
    with (Fake.tv None None) in Hclaim.
  rewrite E1, E2 in Hclaim. discriminate.
Qed.

(** Witness for C6. *)
Lemma build_playlist_no_filler_witness :
  exists out,
    build_playlist Fake.fake_md5_int Fake.fake_fs
      (Fake.tv (Some (JStr "random")) (Some (JBool false))) 1%nat
    = Ok (out, 1%nat)
    /\ Permutation ["media/tv/a.MP4"; "media/tv/b.mp4"] out
    /\ stable_shuffle Fake.fake_md5_int
         ["media/tv/a.MP4"; "media/tv/b.mp4"] "tv" 1%nat
       = Ok (out, 1%nat).
Proof.
  apply (build_playlist_no_filler Fake.fake_md5_int Fake.fake_fs
           (Fake.tv (Some (JStr "random")) (Some (JBool false)))
           ["media/tv/a.MP4"; "media/tv/b.mp4"] 1%nat);
    reflexivity.
Defined.

(** Witness for C7. *)
Lemma build_playlist_filler_witness :
  exists blocks g',
    build_playlist Fake.fake_md5_int Fake.fake_fs (Fake.tv None None) 1%nat
    = Ok (with_fillers ["media/tv/a.MP4"; "media/tv/b.mp4"] blocks, g')
    /\ length blocks = 2%nat
    /\ Forall (filler_block ["media/commercials/ad2.mp4";
                             "media/commercials/ad1.mp4"]) blocks
    /\ (2 <= length (with_fillers ["media/tv/a.MP4"; "media/tv/b.mp4"] blocks)
        <= 6)%nat
    /\ sublist ["media/tv/a.MP4"; "media/tv/b.mp4"]
         (with_fillers ["media/tv/a.MP4"; "media/tv/b.mp4"] blocks).
Proof.
  apply (build_playlist_filler Fake.fake_md5_int Fake.fake_fs
           (Fake.tv None None) ["media/tv/a.MP4"; "media/tv/b.mp4"]
           ["media/commercials/ad2.mp4"; "media/commercials/ad1.mp4"] 1%nat);
    [reflexivity | reflexivity | discriminate | reflexivity].
Defined.

(** ** The schedule engine *)

Section Schedule.
Variable ffprobe : string -> res string.
Variable float : string -> res Q.
Variable strftime_local : Q -> string.

Abbreviation now_playing := (get_now_playing ffprobe float strftime_local).
Abbreviation durations_of := (mapM (get_duration ffprobe float)).




(** C1, on the code: a playlist that is not empty and whose total
    duration truncates to zero makes [get_now_playing] raise
    [ZeroDivisionError]; there is no guard. *)
Theorem now_playing_zero_total_raises
    (PLAYLISTS : gmap string (list string)) (ch : channel) (now : Q)
    (files : list string) (durations : list Q) :
  PLAYLISTS !! ch_id ch = Some files ->
  files <> [] ->
  durations_of files = Ok durations ->
  int (sum durations) = 0 ->
  now_playing PLAYLISTS ch now = Raise ZeroDivisionError.
Proof.
  intros Hpl Hne Hds Hzero. unfold get_now_playing. rewrite Hpl. simpl.
  destruct files as [| file0 files']; [congruence|].
  rewrite Hds. simpl. now rewrite Hzero.
Qed.





(** C4. A playlist of two files, the first of 600 seconds and the
    second of 900, asked 1400 seconds after the reference time: the
    second file is current at offset 800, the first file is next, and
    it starts 100 seconds after the time of the question. *)
Theorem now_playing_scenario
    (PLAYLISTS : gmap string (list string)) (ch : channel)
    (a b : string) (dA dB now : Q) :
  PLAYLISTS !! ch_id ch = Some [a; b] ->
  get_duration ffprobe float a = Ok dA -> (dA == 600)%Q ->
  get_duration ffprobe float b = Ok dB -> (dB == 900)%Q ->
  (now == START_TIME + 1400)%Q ->
  exists start,
    now_playing PLAYLISTS ch now
    = Ok (Some b, 800, Some a, Some (strftime_local start))
    /\ (start == now + 100)%Q.
Proof.
  intros Hpl Ha HdA Hb HdB Hnow.
  exists (now + (dB - (inject_Z 1400 - dA)))%Q. split.
  - unfold get_now_playing. rewrite Hpl. cbn [default from_option id mapM].
    rewrite Ha, Hb. cbn [bind].
    assert (Htotal : int (sum [dA; dB]) = 1500).
    { rewrite (int_Qeq _ (inject_Z 1500)); [apply int_inject_Z|].
      rewrite !sum_cons, sum_nil, HdA, HdB. reflexivity. }
    assert (Hel : int (now - START_TIME) = 1400).
    { rewrite (int_Qeq _ (inject_Z 1400)); [apply int_inject_Z|].
      rewrite Hnow. unfold inject_Z. lra. }
    rewrite Htotal, Hel. cbn [mod_ Z.eqb bind].
    change (1400 mod 1500) with 1400. cbn [walk].
    assert (H1 : lt (inject_Z 1400) dA = false).
    { apply lt_false. rewrite HdA. unfold inject_Z. lra. }
    assert (H2 : lt (inject_Z 1400 - dA) dB = true).
    { apply lt_true. rewrite HdA, HdB. unfold inject_Z. lra. }
    rewrite H1, H2. cbn.
    rewrite (int_Qeq (inject_Z 1400 - dA) (inject_Z 800));
      [now rewrite int_inject_Z|].
    rewrite HdA. unfold inject_Z. lra.
  - rewrite HdA, HdB. unfold inject_Z. lra.
Qed.

End Schedule.

(** ** From the directory scan to the schedule *)

Section Startup.
Context {G : Type} `{Random G}.
Variable ffprobe : string -> res string.
Variable float : string -> res Q.
Variable md5_int : string -> Z.
Variable fs : string -> option (list string).
Variable strftime_local : Q -> string.






End Startup.

(** ** The schedule on concrete playlists *)

(** Witness for C1: one file of duration zero. *)
Lemma now_playing_zero_total_raises_witness :
  fake_now_playing (table ["media/tv/z.mp4"]) (Fake.tv None None)
    (START_TIME + 5)
  = Raise ZeroDivisionError.
Proof.
  apply (now_playing_zero_total_raises Fake.fake_ffprobe Fake.fake_float
           Fake.fake_strftime (table ["media/tv/z.mp4"]) (Fake.tv None None)
           (START_TIME + 5) ["media/tv/z.mp4"] [0 # 1]);
    [reflexivity | discriminate | reflexivity | reflexivity].
Defined.

(** One file of half a second: the total truncates to zero. *)
Example now_playing_half_second :
  fake_now_playing (table ["media/tv/h.mp4"]) (Fake.tv None None)
    (START_TIME + 5)
  = Raise ZeroDivisionError.
Proof. vm_compute. reflexivity. Qed.





(** Witness for C4. *)
Lemma now_playing_scenario_witness :
  exists start,
    fake_now_playing (table ["media/tv/a.MP4"; "media/tv/b.mp4"])
      (Fake.tv None None) (START_TIME + 1400)
    = Ok (Some "media/tv/b.mp4", 800, Some "media/tv/a.MP4",
          Some (Fake.fake_strftime start))
    /\ (start == START_TIME + 1400 + 100)%Q.
Proof.
  apply (now_playing_scenario Fake.fake_ffprobe Fake.fake_float
           Fake.fake_strftime
           (table ["media/tv/a.MP4"; "media/tv/b.mp4"]) (Fake.tv None None)
           "media/tv/a.MP4" "media/tv/b.mp4" (600 # 1) (900 # 1)
           (START_TIME + 1400));
    reflexivity.
Defined.


(** ** The order of strings and the uniqueness of [sorted] *)

Section OrderFacts.

Lemma ascii_compare_refl (c : ascii) : Ascii.compare c c = Eq.
Proof. apply N.compare_refl. Qed.

Lemma ascii_compare_lt_trans (a b c : ascii) :
  Ascii.compare a b = Lt -> Ascii.compare b c = Lt -> Ascii.compare a c = Lt.
Proof.
  unfold Ascii.compare. rewrite !N.compare_lt_iff. apply N.lt_trans.
Qed.

Lemma string_compare_refl (s : string) : String.compare s s = Eq.
Proof.
  induction s as [| c s IH]; simpl; [reflexivity|].
  now rewrite ascii_compare_refl.
Qed.

Lemma string_compare_lt_trans (s1 : string) :
  forall s2 s3,
    String.compare s1 s2 = Lt -> String.compare s2 s3 = Lt ->
    String.compare s1 s3 = Lt.
Proof.
  induction s1 as [| a s1 IH]; intros [| b s2] [| c s3]; simpl;
    try discriminate; try reflexivity.
  destruct (Ascii.compare a b) eqn:Hab; try discriminate;
    destruct (Ascii.compare b c) eqn:Hbc; try discriminate; intros H12 H23.
  - apply Ascii.compare_eq_iff in Hab, Hbc. subst.
    rewrite ascii_compare_refl. now apply IH with s2.
  - apply Ascii.compare_eq_iff in Hab. subst. now rewrite Hbc.
  - apply Ascii.compare_eq_iff in Hbc. subst. now rewrite Hab.
  - now rewrite (ascii_compare_lt_trans a b c Hab Hbc).
Qed.

Lemma str_le_cases (a b : string) :
  str_le a b <-> a = b \/ String.compare a b = Lt.
Proof.
  unfold str_le, String.leb. split.
  - destruct (String.compare a b) eqn:E; try discriminate; intros _.
    + left. now apply String.compare_eq_iff.
    + now right.
  - intros [-> | ->]; [now rewrite string_compare_refl | reflexivity].
Qed.

Lemma str_le_refl (a : string) : str_le a a.
Proof. apply str_le_cases. now left. Qed.

Lemma str_le_trans (a b c : string) : str_le a b -> str_le b c -> str_le a c.
Proof.
  rewrite !str_le_cases. intros [-> | Hab] [-> | Hbc]; auto.
  right. now apply string_compare_lt_trans with b.
Qed.

Lemma str_le_antisym (a b : string) : str_le a b -> str_le b a -> a = b.
Proof. apply String.leb_antisym. Qed.

Lemma sorted_strongly (l : list string) : StronglySorted str_le (sorted l).
Proof.
  apply Sorted_StronglySorted; [| apply sorted_sorted].
  intros a b c. apply str_le_trans.
Qed.

(** A list has one sorted arrangement. *)
Lemma strongly_sorted_unique (l : list string) :
  forall l', StronglySorted str_le l -> StronglySorted str_le l' ->
             Permutation l l' -> l = l'.
Proof.
  induction l as [| x l IH]; intros l' Hl Hl' Hperm.
  - now apply Permutation_nil in Hperm.
  - destruct l' as [| y l'].
    { symmetry in Hperm. now apply Permutation_nil in Hperm. }
    apply StronglySorted_inv in Hl as [Hl Hx].
    apply StronglySorted_inv in Hl' as [Hl' Hy].
    assert (Hxy : x = y).
    { assert (Hin1 : In x (y :: l'))
        by (apply Permutation_in with (x :: l); [exact Hperm | now left]).
      assert (Hin2 : In y (x :: l)).
      { apply Permutation_in with (y :: l'); [now symmetry | now left]. }
      destruct Hin1 as [-> | Hin1]; [reflexivity|].
      destruct Hin2 as [-> | Hin2]; [reflexivity|].
      rewrite List.Forall_forall in Hx, Hy.
      apply str_le_antisym; [now apply Hx | now apply Hy]. }
    subst y. f_equal. apply IH; try assumption.
    now apply Permutation_cons_inv with x.
Qed.

Lemma sorted_permutation (l l' : list string) :
  Permutation l l' -> sorted l = sorted l'.
Proof.
  intros Hperm. apply strongly_sorted_unique; try apply sorted_strongly.
  rewrite <- (sorted_perm l), <- (sorted_perm l'). exact Hperm.
Qed.

Lemma sorted_id (l : list string) : Sorted str_le l -> sorted l = l.
Proof.
  intros Hl. apply strongly_sorted_unique.
  - apply sorted_strongly.
  - apply Sorted_StronglySorted; [| exact Hl].
    intros a b c. apply str_le_trans.
  - symmetry. apply sorted_perm.
Qed.

(** A common prefix does not change the order. *)
Lemma compare_append (p a b : string) :
  String.compare (String.append p a) (String.append p b) = String.compare a b.
Proof.
  induction p as [| c p IH]; simpl; [reflexivity|].
  now rewrite ascii_compare_refl.
Qed.

Lemma str_le_append (p a b : string) :
  str_le (String.append p a) (String.append p b) <-> str_le a b.
Proof. unfold str_le, String.leb. now rewrite compare_append. Qed.

Lemma strongly_sorted_filter (f : string -> bool) (l : list string) :
  StronglySorted str_le l -> StronglySorted str_le (List.filter f l).
Proof.
  induction 1 as [| x l Hl IH Hx]; simpl; [constructor|].
  destruct (f x); [| exact IH]. constructor; [exact IH|].
  rewrite List.Forall_forall in *. intros y Hy.
  apply filter_In in Hy as [Hy _]. now apply Hx.
Qed.

Lemma strongly_sorted_map (h : string -> string) (l : list string) :
  (forall a b, In a l -> In b l -> str_le a b -> str_le (h a) (h b)) ->
  StronglySorted str_le l -> StronglySorted str_le (map h l).
Proof.
  intros Hmono Hl. induction Hl as [| x l Hl IH Hx]; simpl; [constructor|].
  constructor.
  - apply IH. intros a b Ha Hb. apply Hmono; now right.
  - rewrite List.Forall_forall in *. intros y Hy.
    apply in_map_iff in Hy as (z & <- & Hz).
    apply Hmono; [now left | now right | now apply Hx].
Qed.

End OrderFacts.

(** ** Facts about [lower], [strip], [endswith] and [path_join] *)

(** The characters of a string, all of them spaces for [strip]. *)
Definition all_space (s : string) : bool :=
  forallb is_space (list_ascii_of_string s).

(** The characters of a string, none of them a space for [strip]. *)
Definition no_space (s : string) : bool :=
  forallb (fun c => negb (is_space c)) (list_ascii_of_string s).

Section StringFacts.

Lemma list_of_append (a b : string) :
  list_ascii_of_string (String.append a b)
  = list_ascii_of_string a ++ list_ascii_of_string b.
Proof. induction a as [| c a IH]; simpl; [reflexivity | now rewrite IH]. Qed.

Lemma string_of_app (l1 l2 : list ascii) :
  string_of_list_ascii (l1 ++ l2)
  = String.append (string_of_list_ascii l1) (string_of_list_ascii l2).
Proof. induction l1 as [| c l1 IH]; simpl; [reflexivity | now rewrite IH]. Qed.

Lemma rev_string_append (a b : string) :
  rev_string (String.append a b)
  = String.append (rev_string b) (rev_string a).
Proof.
  unfold rev_string. now rewrite list_of_append, rev_app_distr, string_of_app.
Qed.

Lemma rev_string_involutive (s : string) : rev_string (rev_string s) = s.
Proof.
  unfold rev_string.
  now rewrite list_ascii_of_string_of_list_ascii, rev_involutive,
    string_of_list_ascii_of_string.
Qed.

Lemma lower_as_map (s : string) :
  lower s = string_of_list_ascii (map lower_char (list_ascii_of_string s)).
Proof. induction s as [| c s IH]; simpl; [reflexivity | now rewrite IH]. Qed.

Lemma lower_append (a b : string) :
  lower (String.append a b) = String.append (lower a) (lower b).
Proof. induction a as [| c a IH]; simpl; [reflexivity | now rewrite IH]. Qed.

Lemma lower_rev_string (s : string) :
  lower (rev_string s) = rev_string (lower s).
Proof.
  rewrite !lower_as_map. unfold rev_string.
  now rewrite !list_ascii_of_string_of_list_ascii, map_rev.
Qed.

Lemma is_space_lower_char (c : ascii) : is_space (lower_char c) = is_space c.
Proof. destruct c as [[] [] [] [] [] [] [] []]; reflexivity. Qed.

Lemma all_space_lower (s : string) : all_space (lower s) = all_space s.
Proof.
  unfold all_space. induction s as [| c s IH]; simpl; [reflexivity|].
  now rewrite is_space_lower_char, IH.
Qed.

Lemma all_space_rev (s : string) : all_space s = true ->
  all_space (rev_string s) = true.
Proof.
  unfold all_space, rev_string.
  rewrite list_ascii_of_string_of_list_ascii, !forallb_forall.
  intros Hs c Hc. apply Hs. now apply in_rev.
Qed.

Lemma prefix_append (p : string) :
  forall s t, String.prefix p s = true ->
              String.prefix p (String.append s t) = true.
Proof.
  induction p as [| a p IH]; intros [| b s] t; simpl; try easy.
  - now destruct t.
  - destruct (ascii_dec a b); [apply IH | discriminate].
Qed.

(** A prefix without spaces does not reach into a tail of spaces. *)
Lemma prefix_before_spaces (p : string) :
  forall x y,
    no_space p = true -> all_space y = true ->
    String.prefix p (String.append x y) = true -> String.prefix p x = true.
Proof.
  unfold no_space, all_space.
  induction p as [| a p IH]; intros x y Hp Hy Hpre.
  - now destruct x.
  - simpl in Hp. apply andb_true_iff in Hp as [Ha Hp].
    destruct x as [| b x]; simpl in *.
    + destruct y as [| d y]; simpl in Hpre; [discriminate|]. simpl in Hy.
      apply andb_true_iff in Hy as [Hd _].
      destruct (ascii_dec a d) as [-> |]; [| discriminate].
      rewrite Hd in Ha. discriminate.
    + destruct (ascii_dec a b); [| discriminate]. now apply IH with y.
Qed.

(** [lstrip] cuts a run of spaces off the front. *)
Lemma lstrip_split (s : string) :
  exists ws, all_space ws = true /\ s = String.append ws (lstrip s).
Proof.
  unfold all_space. induction s as [| c s (ws & Hws & Hs)].
  - now exists EmptyString.
  - simpl. destruct (is_space c) eqn:Hc.
    + exists (String c ws). split; simpl; [now rewrite Hc, Hws|].
      change (String c s = String c (String.append ws (lstrip s))).
      f_equal. exact Hs.
    + now exists EmptyString.
Qed.

Lemma endswith_append (x y p : string) :
  endswith y p = true -> endswith (String.append x y) p = true.
Proof.
  unfold endswith. rewrite rev_string_append. apply prefix_append.
Qed.

(** The extensions of the whitelist are not empty and hold no space. *)
Lemma valid_exts_shape (ext : string) :
  In ext VALID_EXTS ->
  no_space (rev_string ext) = true
  /\ exists c rest, rev_string ext = String c rest.
Proof.
  intros Hin. repeat destruct Hin as [<- | Hin];
    try (split; [reflexivity | eexists _, _; reflexivity]).
  destruct Hin.
Qed.

Lemma valid_ext_witness (f : string) :
  valid_ext f = true <->
  exists ext, In ext VALID_EXTS /\ endswith (lower f) ext = true.
Proof. unfold valid_ext, endswith_any. apply existsb_exists. Qed.

(** On a name with a whitelisted extension, [strip] removes the leading
    spaces only, and the extension stays. *)
Lemma valid_ext_strip (f : string) :
  valid_ext f = true -> strip f = lstrip f /\ valid_ext (strip f) = true.
Proof.
  intros Hf. apply valid_ext_witness in Hf as (ext & Hin & Hend).
  destruct (valid_exts_shape ext Hin) as (Hns & e & rest & Hrev).
  destruct (lstrip_split f) as (ws & Hws & Hsplit).
  set (r := lstrip f) in *.
  assert (Hr : endswith (lower r) ext = true).
  { unfold endswith in *. rewrite Hsplit, lower_append, rev_string_append in Hend.
    apply prefix_before_spaces with (rev_string (lower ws)); try assumption.
    apply all_space_rev. now rewrite all_space_lower. }
  assert (Hstrip : strip f = r).
  { unfold strip. fold r. unfold endswith in Hr.
    rewrite <- lower_rev_string, Hrev in Hr.
    destruct (rev_string r) as [| c s] eqn:Hrr; [discriminate|].
    simpl in Hr. destruct (ascii_dec e (lower_char c)) as [-> |];
      [| discriminate].
    unfold no_space in Hns. rewrite Hrev in Hns. simpl in Hns.
    apply andb_true_iff in Hns as [Hc _].
    rewrite is_space_lower_char in Hc. simpl.
    destruct (is_space c); [discriminate|].
    rewrite <- Hrr. apply rev_string_involutive. }
  split; [exact Hstrip|]. rewrite Hstrip.
  apply valid_ext_witness. now exists ext.
Qed.

Lemma append_assoc (a b c : string) :
  String.append a (String.append b c) = String.append (String.append a b) c.
Proof.
  induction a as [| x a IH]; [reflexivity|].
  change (String x (String.append a (String.append b c))
          = String x (String.append (String.append a b) c)).
  now rewrite IH.
Qed.

Lemma path_join_suffix (a b : string) :
  exists pre, path_join a b = String.append pre b.
Proof.
  unfold path_join. destruct (startswith b "/").
  - now exists EmptyString.
  - destruct (String.eqb a "" || endswith a "/").
    + now exists a.
    + exists (String.append a "/"). apply append_assoc.
Qed.

Lemma valid_ext_path_join (a b : string) :
  valid_ext b = true -> valid_ext (path_join a b) = true.
Proof.
  intros Hb. apply valid_ext_witness in Hb as (ext & Hin & Hend).
  destruct (path_join_suffix a b) as [pre ->].
  apply valid_ext_witness. exists ext. split; [exact Hin|].
  rewrite lower_append. now apply endswith_append.
Qed.

Lemma valid_ext_nonempty (p : string) : valid_ext p = true -> p <> "".
Proof. now intros Hp ->. Qed.

End StringFacts.

(** ** More on the scan and the builder *)

Section BuilderMore.
Context {G : Type} `{Random G}.
Variable md5_int : string -> Z.
Variable fs : string -> option (list string).

Lemma scan_valid (ch : channel) :
  exists files,
    get_channel_files fs ch = Ok files
    /\ Forall (fun p => valid_ext p = true) files.
Proof.
  unfold get_channel_files, path_exists, listdir.
  destruct (fs (ch_path ch)) as [entries |]; simpl.
  - eexists. split; [reflexivity|]. apply List.Forall_forall. intros p Hp.
    apply in_map_iff in Hp as (f & <- & Hf).
    apply filter_In in Hf as [_ Hvalid].
    apply valid_ext_path_join. now apply valid_ext_strip.
  - exists []. split; [reflexivity | constructor].
Qed.

(** X1. For a channel folder that [os.listdir] lists, with names of
    ASCII characters, the scan returns, and every path it returns is
    made from an entry of the folder that has a whitelisted extension,
    compared without case; after [strip] and [os.path.join] the path
    still has that extension, so no path is the empty string. *)
Theorem scan_paths_valid (ch : channel) (entries : list string) :
  fs (ch_path ch) = Some entries ->
  forallb ascii_name entries = true ->
  exists files,
    get_channel_files fs ch = Ok files
    /\ Forall (fun p =>
         valid_ext p = true /\ p <> ""
         /\ exists f,
              In f entries /\ ascii_name f = true /\ valid_ext f = true
              /\ p = path_join (ch_path ch) (strip f)) files.
Proof.
  intros Hfs Hascii.
  unfold get_channel_files, path_exists, listdir. rewrite Hfs. simpl.
  eexists. split; [reflexivity|]. apply List.Forall_forall. intros p Hp.
  apply in_map_iff in Hp as (f & <- & Hf).
  apply filter_In in Hf as [Hin Hvalid].
  assert (Hv : valid_ext (path_join (ch_path ch) (strip f)) = true).
  { apply valid_ext_path_join. now apply valid_ext_strip. }
  assert (Hf : In f entries).
  { apply Permutation_in with (sorted entries); [| exact Hin].
    symmetry. apply sorted_perm. }
  split; [exact Hv|]. split; [now apply valid_ext_nonempty|].
  exists f. split; [exact Hf|]. split; [| now split].
  rewrite forallb_forall in Hascii. now apply Hascii.
Qed.

Lemma scan_commercials_valid (p : string) :
  exists pool,
    scan_commercials fs p = Ok pool
    /\ Forall (fun x => valid_ext x = true) pool.
Proof.
  unfold scan_commercials, path_exists, listdir.
  destruct (fs p) as [entries |]; simpl.
  - eexists. split; [reflexivity|]. apply List.Forall_forall. intros x Hx.
    apply in_map_iff in Hx as (f & <- & Hf).
    apply filter_In in Hf as [_ Hvalid]. now apply valid_ext_path_join.
  - exists []. split; [reflexivity | constructor].
Qed.

Lemma with_fillers_members (pool main : list string)
    (blocks : list (list string)) :
  Forall (fun b => forall x, In x b -> In x pool) blocks ->
  forall x, In x (with_fillers main blocks) -> In x main \/ In x pool.
Proof.
  revert blocks. unfold with_fillers.
  induction main as [| ep main IH]; intros [| b blocks] Hall x Hx;
    simpl in *; try tauto.
  inversion Hall as [| ? ? Hb Hall']; subst.
  destruct Hx as [<- | Hx]; [tauto|].
  apply in_app_or in Hx as [Hx | Hx]; [right; now apply Hb|].
  destruct (IH blocks Hall' x Hx); tauto.
Qed.

Lemma filler_block_members (pool block : list string) :
  filler_block pool block -> forall x, In x block -> In x pool.
Proof.
  intros (_ & idxs & _ & Hall) x Hx.
  apply list_elem_of_In in Hx.
  destruct (proj1 (list_elem_of_lookup block x) Hx) as [k Hk].
  destruct (Forall2_lookup_r _ _ _ _ _ Hall Hk) as (i & _ & Hi).
  apply list_elem_of_In. apply (list_elem_of_lookup_2 pool i x Hi).
Qed.

(** With an empty pool the loop of step 4 draws nothing and adds
    nothing. *)
Lemma interleave_no_pool (files playlist : list string) (g : G) :
  interleave [] files playlist g = Ok (playlist ++ files, g).
Proof.
  revert playlist. induction files as [| ep files IH]; intros playlist.
  - simpl. unfold ret. now rewrite app_nil_r.
  - cbn [interleave]. rewrite IH. now rewrite <- app_assoc.
Qed.

Lemma with_fillers_none (files : list string) :
  with_fillers files (map (fun _ => []) files) = files.
Proof.
  unfold with_fillers. induction files as [| ep files IH]; simpl;
    [reflexivity | now rewrite IH].
Qed.

(** The loop of step 4, for any pool. *)
Lemma interleave_any (pool files : list string) (g : G) :
  exists blocks g',
    interleave pool files [] g = Ok (with_fillers files blocks, g')
    /\ length blocks = length files
    /\ Forall (fun b => forall x, In x b -> In x pool) blocks.
Proof.
  destruct pool as [| p pool'].
  - exists (map (fun _ => []) files), g. rewrite interleave_no_pool.
    split; [| split].
    + now rewrite with_fillers_none.
    + apply length_map.
    + apply List.Forall_forall. intros b Hb.
      apply in_map_iff in Hb as (_ & <- & _). intros x [].
  - destruct (interleave_blocks (p :: pool') ltac:(discriminate) files [] g)
      as (blocks & g' & Hrun & Hlen & Hfill).
    exists blocks, g'. split; [exact Hrun|]. split; [exact Hlen|].
    eapply List.Forall_impl; [| exact Hfill].
    intros b. apply filler_block_members.
Qed.

(** The playlist holds the ordered main files in their order, and
    nothing but scanned files and clips of the pool. *)
Lemma build_playlist_members (ch : channel) (g : G) :
  exists files pool playlist g',
    get_channel_files fs ch = Ok files
    /\ scan_commercials fs (path_join "media" "commercials") = Ok pool
    /\ build_playlist md5_int fs ch g = Ok (playlist, g')
    /\ sublist (ordered_files md5_int ch files) playlist
    /\ Forall (fun x => In x files \/ In x pool) playlist.
Proof.
  destruct (get_channel_files_total fs ch) as (files & Hscan).
  destruct (scan_commercials_total fs (path_join "media" "commercials"))
    as (pool & Hads).
  pose proof (ordered_files_perm md5_int ch files) as Hperm.
  rewrite build_playlist_steps, Hscan, Hads.
  destruct (filler_on ch).
  - destruct (interleave_any pool (ordered_files md5_int ch files) g)
      as (blocks & g' & Hrun & Hlen & Hblocks).
    exists files, pool, (with_fillers (ordered_files md5_int ch files) blocks),
      g'.
    repeat split; try assumption; [now apply with_fillers_sublist|].
    apply List.Forall_forall. intros x Hx.
    destruct (with_fillers_members pool _ blocks Hblocks x Hx) as [Hm | Hp];
      [left | now right].
    apply Permutation_in with (ordered_files md5_int ch files);
      [now symmetry | exact Hm].
  - exists files, pool, (ordered_files md5_int ch files), g.
    repeat split; try assumption; [reflexivity|].
    apply List.Forall_forall. intros x Hx. left.
    apply Permutation_in with (ordered_files md5_int ch files);
      [now symmetry | exact Hx].
Qed.

Lemma members_valid (files pool playlist : list string) :
  Forall (fun p => valid_ext p = true) files ->
  Forall (fun p => valid_ext p = true) pool ->
  Forall (fun x => In x files \/ In x pool) playlist ->
  Forall (fun x => valid_ext x = true) playlist.
Proof.
  intros Hfiles Hpool. apply List.Forall_impl. intros x [Hx | Hx].
  - rewrite List.Forall_forall in Hfiles. now apply Hfiles.
  - rewrite List.Forall_forall in Hpool. now apply Hpool.
Qed.

Lemma build_playlist_valid (ch : channel) (g : G) :
  exists playlist g',
    build_playlist md5_int fs ch g = Ok (playlist, g')
    /\ Forall (fun x => valid_ext x = true) playlist.
Proof.
  destruct (build_playlist_members ch g)
    as (files & pool & playlist & g' & Hscan & Hads & Hbuild & _ & Hin).
  destruct (scan_valid ch) as (files' & Hscan' & Hfiles).
  destruct (scan_commercials_valid (path_join "media" "commercials"))
    as (pool' & Hads' & Hpool).
  rewrite Hscan in Hscan'. injection Hscan' as <-.
  rewrite Hads in Hads'. injection Hads' as <-.
  exists playlist, g'. split; [exact Hbuild|].
  now apply (members_valid files pool).
Qed.

(** X2. When the scan of the channel folder and the scan of the
    shared commercials folder return, [build_playlist] returns:
    [random.sample] is never asked for more clips than the pool holds.
    The playlist holds the ordered main files in their order, and
    every entry is a scanned main file or a clip of the filler pool. *)
Theorem build_playlist_total (ch : channel) (g : G)
    (files pool : list string) :
  get_channel_files fs ch = Ok files ->
  scan_commercials fs (path_join "media" "commercials") = Ok pool ->
  exists playlist g',
    build_playlist md5_int fs ch g = Ok (playlist, g')
    /\ sublist (ordered_files md5_int ch files) playlist
    /\ Forall (fun x => In x files \/ In x pool) playlist.
Proof.
  intros Hscan Hads.
  destruct (build_playlist_members ch g)
    as (files' & pool' & playlist & g' & Hscan' & Hads' & Hbuild & Hsub & Hin).
  rewrite Hscan in Hscan'. injection Hscan' as <-.
  rewrite Hads in Hads'. injection Hads' as <-.
  exists playlist, g'. now repeat split.
Qed.

(** X3. With the filler switched on and no clip to take, because the
    shared folder is missing or holds no file with a whitelisted
    extension, the playlist is the ordered main files alone and the
    shared generator is not used. *)
Theorem build_playlist_no_clips (ch : channel) (files : list string) (g : G) :
  get_channel_files fs ch = Ok files ->
  scan_commercials fs (path_join "media" "commercials") = Ok [] ->
  filler_on ch = true ->
  build_playlist md5_int fs ch g = Ok (ordered_files md5_int ch files, g).
Proof.
  intros Hscan Hads Hon.
  rewrite build_playlist_steps, Hscan, Hon, Hads. apply interleave_no_pool.
Qed.

End BuilderMore.

Section ScanOrder.
Context {G : Type} `{Random G}.
Variable md5_int : string -> Z.

(** X4. The scan sorts what [os.listdir] returns, so the order of the
    listing does not matter: two directory trees that list the same
    entries of the channel folder in different orders give the same
    scan, and with the filler off the same playlist. *)
Theorem scan_order_irrelevant (fs fs' : string -> option (list string))
    (ch : channel) (entries entries' : list string) :
  fs (ch_path ch) = Some entries ->
  fs' (ch_path ch) = Some entries' ->
  Permutation entries entries' ->
  get_channel_files fs ch = get_channel_files fs' ch
  /\ (filler_on ch = false ->
      forall g : G,
        build_playlist md5_int fs ch g = build_playlist md5_int fs' ch g).
Proof.
  intros Hfs Hfs' Hperm.
  assert (Hscan : get_channel_files fs ch = get_channel_files fs' ch).
  { unfold get_channel_files, path_exists, listdir. rewrite Hfs, Hfs'. simpl.
    now rewrite (sorted_permutation _ _ Hperm). }
  split; [exact Hscan|]. intros Hoff g.
  rewrite !build_playlist_steps, Hscan, Hoff. reflexivity.
Qed.

Lemma path_join_relative (a b : string) :
  startswith b "/" = false ->
  exists pre, forall b', startswith b' "/" = false ->
                         path_join a b' = String.append pre b'.
Proof.
  intros _. unfold path_join.
  destruct (String.eqb a "" || endswith a "/").
  - exists a. now intros b' ->.
  - exists (String.append a "/"). intros b' ->. apply append_assoc.
Qed.

(** X5. When the entries of the folder are names of ASCII characters,
    none with white space around it or a slash in front, the scan is
    already in sorted order; so for a channel whose rotation is not
    "random" and whose filler is off, sorting again changes nothing
    and the playlist is the scan itself. *)
Theorem sequential_playlist_is_scan (fs : string -> option (list string))
    (ch : channel) (entries : list string) :
  fs (ch_path ch) = Some entries ->
  Forall (fun f => ascii_name f = true /\ strip f = f
                   /\ startswith f "/" = false) entries ->
  exists files,
    get_channel_files fs ch = Ok files
    /\ Sorted str_le files
    /\ sorted files = files
    /\ (eq_str (ch_rotation ch) "random" = false ->
        filler_on ch = false ->
        forall g : G, build_playlist md5_int fs ch g = Ok (files, g)).
Proof.
  intros Hfs Hascii.
  assert (Hclean : Forall (fun f => strip f = f /\ startswith f "/" = false)
                          entries)
    by (eapply List.Forall_impl; [| exact Hascii]; now intros f [_ Hf]).
  set (files := map (fun f => path_join (ch_path ch) (strip f))
                    (List.filter valid_ext (sorted entries))).
  assert (Hscan : get_channel_files fs ch = Ok files).
  { unfold get_channel_files, path_exists, listdir. now rewrite Hfs. }
  assert (Hsorted : StronglySorted str_le files).
  { subst files. apply strongly_sorted_map;
      [| apply strongly_sorted_filter, sorted_strongly].
    assert (Hin : forall f, In f (List.filter valid_ext (sorted entries)) ->
                            strip f = f /\ startswith f "/" = false).
    { intros f Hf. apply filter_In in Hf as [Hf _].
      rewrite List.Forall_forall in Hclean. apply Hclean.
      apply Permutation_in with (sorted entries); [| exact Hf].
      symmetry. apply sorted_perm. }
    intros a b Ha Hb Hab.
    destruct (Hin a Ha) as [-> Hsa], (Hin b Hb) as [-> Hsb].
    destruct (path_join_relative (ch_path ch) a Hsa) as [pre Hpre].
    rewrite (Hpre a Hsa), (Hpre b Hsb). now apply str_le_append. }
  assert (Hid : sorted files = files)
    by (apply sorted_id; now apply StronglySorted_Sorted).
  exists files. split; [exact Hscan|].
  split; [now apply StronglySorted_Sorted|]. split; [exact Hid|].
  intros Hseq Hoff g.
  rewrite build_playlist_steps, Hscan, Hoff. unfold ordered_files.
  now rewrite Hseq, Hid.
Qed.

(** The loop at startup leaves the other identifiers alone. *)
Lemma startup_untouched (fs : string -> option (list string))
    (CHANNELS : list channel) :
  forall (PLAYLISTS0 PLAYLISTS : gmap string (list string)) (g g' : G),
    startup md5_int fs CHANNELS PLAYLISTS0 g = Ok (PLAYLISTS, g') ->
    forall i, ~ In i (map ch_id CHANNELS) ->
              PLAYLISTS !! i = PLAYLISTS0 !! i.
Proof.
  induction CHANNELS as [| ch rest IH]; intros PL0 PL g g' Hrun i Hi.
  - now injection Hrun as <- <-.
  - cbn [startup] in Hrun. unfold bindM in Hrun.
    destruct (build_playlist md5_int fs ch g) as [[pl g1] | e];
      [| discriminate].
    simpl in Hi. rewrite (IH _ _ _ _ Hrun i) by tauto.
    apply lookup_insert_ne. tauto.
Qed.

(** The loop at startup, from any table. *)
Lemma startup_table (fs : string -> option (list string))
    (CHANNELS : list channel) :
  forall (PLAYLISTS0 : gmap string (list string)) (g : G),
  exists PLAYLISTS g',
    startup md5_int fs CHANNELS PLAYLISTS0 g = Ok (PLAYLISTS, g')
    /\ (forall i, is_Some (PLAYLISTS !! i)
                  <-> is_Some (PLAYLISTS0 !! i) \/ In i (map ch_id CHANNELS))
    /\ (forall i playlist,
          In i (map ch_id CHANNELS) -> PLAYLISTS !! i = Some playlist ->
          Forall (fun x => valid_ext x = true) playlist).
Proof.
  induction CHANNELS as [| ch rest IH]; intros PL0 g.
  - exists PL0, g. split; [reflexivity|]. split; [| intros i pl []].
    intros i. simpl. tauto.
  - destruct (build_playlist_valid md5_int fs ch g)
      as (playlist & g1 & Hbuild & Hvalid).
    destruct (IH (<[ch_id ch := playlist]> PL0) g1)
      as (PL & g' & Hrun & Hkeys & Hall).
    exists PL, g'. cbn [startup]. unfold bindM. rewrite Hbuild.
    split; [exact Hrun|]. split.
    + intros i. rewrite Hkeys. simpl.
      destruct (decide (ch_id ch = i)) as [-> | Hne].
      * rewrite lookup_insert_eq. split; [tauto|]. intros _. left. eauto.
      * rewrite lookup_insert_ne by exact Hne. tauto.
    + intros i pl Hi Hpl.
      destruct (in_dec string_dec i (map ch_id rest)) as [Hrest | Hrest];
        [now apply (Hall i pl)|].
      destruct Hi as [<- | Hi]; [| contradiction].
      rewrite (startup_untouched fs rest _ _ _ _ Hrun _ Hrest) in Hpl.
      rewrite lookup_insert_eq in Hpl. now injection Hpl as <-.
Qed.

(** What the table holds for an identifier was built for a channel
    with that identifier. *)
Lemma startup_entries (fs : string -> option (list string))
    (CHANNELS : list channel) :
  forall (PLAYLISTS0 PLAYLISTS : gmap string (list string)) (g g' : G),
    startup md5_int fs CHANNELS PLAYLISTS0 g = Ok (PLAYLISTS, g') ->
    forall i playlist,
      In i (map ch_id CHANNELS) -> PLAYLISTS !! i = Some playlist ->
      exists ch g1 g2,
        In ch CHANNELS /\ ch_id ch = i
        /\ build_playlist md5_int fs ch g1 = Ok (playlist, g2).
Proof.
  induction CHANNELS as [| ch rest IH]; intros PL0 PL g g' Hrun i pl Hi Hpl;
    [destruct Hi|].
  cbn [startup] in Hrun. unfold bindM in Hrun.
  destruct (build_playlist md5_int fs ch g) as [[pl0 g1] | e] eqn:Hbuild;
    [| discriminate].
  destruct (in_dec string_dec i (map ch_id rest)) as [Hrest | Hrest].
  - destruct (IH _ _ _ _ Hrun i pl Hrest Hpl) as (c & ga & gb & Hc & Hid & Hb).
    exists c, ga, gb. split; [now right | now split].
  - destruct Hi as [<- | Hi]; [| contradiction].
    rewrite (startup_untouched fs rest _ _ _ _ Hrun _ Hrest) in Hpl.
    rewrite lookup_insert_eq in Hpl. injection Hpl as <-.
    exists ch, g, g1. split; [now left | now split].
Qed.

(** X6. When the scan of every channel folder and the scan of the
    shared commercials folder return, the loop at startup, run on the
    empty table, returns.  The table it leaves has an entry for each
    channel identifier and for nothing else, and every path of a
    playlist in it is a clip of the filler pool or a file scanned for
    a channel with that identifier. *)
Theorem startup_total (fs : string -> option (list string))
    (CHANNELS : list channel) (g : G) (pool : list string) :
  forallb (fun ch => returns (get_channel_files fs ch)) CHANNELS = true ->
  scan_commercials fs (path_join "media" "commercials") = Ok pool ->
  exists PLAYLISTS g',
    startup md5_int fs CHANNELS ∅ g = Ok (PLAYLISTS, g')
    /\ (forall i, is_Some (PLAYLISTS !! i) <-> In i (map ch_id CHANNELS))
    /\ (forall i playlist,
          PLAYLISTS !! i = Some playlist ->
          Forall (fun x =>
                    In x pool
                    \/ exists ch files,
                         In ch CHANNELS /\ ch_id ch = i
                         /\ get_channel_files fs ch = Ok files
                         /\ In x files) playlist).
Proof.
  intros _ Hads.
  destruct (startup_table fs CHANNELS ∅ g) as (PL & g' & Hrun & Hkeys & _).
  exists PL, g'. split; [exact Hrun|].
  assert (Hk : forall i, is_Some (PL !! i) <-> In i (map ch_id CHANNELS)).
  { intros i. rewrite Hkeys, lookup_empty. split; [| tauto].
    intros [[x Hx] | Hi]; [discriminate | exact Hi]. }
  split; [exact Hk|]. intros i playlist Hpl.
  assert (Hi : In i (map ch_id CHANNELS)) by (apply Hk; eauto).
  destruct (startup_entries fs CHANNELS _ _ _ _ Hrun i playlist Hi Hpl)
    as (ch & g1 & g2 & Hch & Hid & Hbuild).
  destruct (build_playlist_members md5_int fs ch g1)
    as (files & pool' & playlist' & g2' & Hscan & Hads' & Hbuild' & _ & Hin).
  rewrite Hads in Hads'. injection Hads' as <-.
  rewrite Hbuild in Hbuild'. injection Hbuild' as <- <-.
  eapply List.Forall_impl; [| exact Hin].
  intros x [Hx | Hx]; [right | now left].
  now exists ch, files.
Qed.

(** X7. An assignment to the table replaces what was there: when
    several channels share an identifier, the table ends with the
    playlist built for the last of them. *)
Theorem startup_last_wins (fs : string -> option (list string))
    (before after : list channel) (ch : channel)
    (PLAYLISTS0 PLAYLISTS : gmap string (list string)) (g g' : G) :
  startup md5_int fs (before ++ ch :: after) PLAYLISTS0 g
  = Ok (PLAYLISTS, g') ->
  ~ In (ch_id ch) (map ch_id after) ->
  exists g1 g2 playlist,
    build_playlist md5_int fs ch g1 = Ok (playlist, g2)
    /\ PLAYLISTS !! ch_id ch = Some playlist.
Proof.
  revert PLAYLISTS0 g.
  induction before as [| c before IH]; intros PL0 g Hrun Hlast.
  - cbn [app startup] in Hrun. unfold bindM in Hrun.
    destruct (build_playlist md5_int fs ch g) as [[pl g1] | e] eqn:Hb;
      [| discriminate].
    exists g, g1, pl. split; [exact Hb|].
    rewrite (startup_untouched fs after _ _ _ _ Hrun _ Hlast).
    apply lookup_insert_eq.
  - cbn [app startup] in Hrun. unfold bindM in Hrun.
    destruct (build_playlist md5_int fs c g) as [[pl g1] | e];
      [| discriminate].
    now apply (IH _ _ Hrun).
Qed.

End ScanOrder.

(** ** More on the schedule engine *)

Section ScheduleMore.
Variable ffprobe : string -> res string.
Variable float : string -> res Q.
Variable strftime_local : Q -> string.

Abbreviation now_playing' := (get_now_playing ffprobe float strftime_local).
Abbreviation durations_of' := (mapM (get_duration ffprobe float)).

(** The loop never raises: its indices stay inside the playlist.  What
    it returns names files of the playlist. *)
Lemma walk_safe (files : list string) (now : Q) :
  forall (ds : list Q) (i : nat) (offset : Q),
    length files = (i + length ds)%nat ->
    walk strftime_local files now i ds offset = Ok None
    \/ exists file next o start,
         walk strftime_local files now i ds offset
         = Ok (Some (Some file, o, Some next, Some start))
         /\ In file files /\ In next files.
Proof.
  induction ds as [| d ds IH]; intros i offset Hlen; [now left|].
  cbn [walk]. destruct (lt offset d).
  - right. simpl in Hlen.
    destruct (lookup_lt_is_Some_2 files i ltac:(lia)) as [file Hfile].
    unfold index at 1. rewrite Hfile. cbn [bind].
    assert (Hfin : In file files)
      by (apply list_elem_of_In; eapply list_elem_of_lookup_2; eauto).
    destruct (1 <? length files)%nat.
    + destruct (lookup_lt_is_Some_2 files ((i + 1) mod length files)%nat)
        as [next Hnext].
      { apply Nat.mod_upper_bound. lia. }
      unfold index. rewrite Hnext. cbn [bind].
      exists file, next, (int offset),
        (strftime_local (now + (d - offset))%Q).
      repeat split; [exact Hfin|].
      apply list_elem_of_In. eapply list_elem_of_lookup_2; eauto.
    + cbn [bind]. exists file, file, (int offset),
        (strftime_local (now + (d - offset))%Q). now repeat split.
  - apply IH. simpl in Hlen. lia.
Qed.


(** X9. What [get_now_playing] returns is either the nothing-playing
    tuple [(None, 0, None, None)], exactly when the channel has no
    playlist or an empty one, or a current file and a next file that
    both occur in the playlist. *)
Theorem now_playing_result
    (PLAYLISTS : gmap string (list string)) (ch : channel) (now : Q)
    (r : playing) :
  now_playing' PLAYLISTS ch now = Ok r ->
  (r = (None, 0, None, None) /\ default [] (PLAYLISTS !! ch_id ch) = [])
  \/ (exists file offset next start,
        r = (Some file, offset, Some next, start)
        /\ In file (default [] (PLAYLISTS !! ch_id ch))
        /\ In next (default [] (PLAYLISTS !! ch_id ch))).
Proof.
  unfold get_now_playing.
  destruct (default [] (PLAYLISTS !! ch_id ch)) as [| file0 files'] eqn:Hpl.
  { intros [= <-]. now left. }
  destruct (durations_total ffprobe float (file0 :: files'))
    as (ds & Hds & Hlen).
  rewrite Hds. cbn [bind].
  destruct (mod_ (int (now - START_TIME)) (int (sum ds))) as [elapsed | e];
    cbn [bind]; [| discriminate].
  destruct (walk_safe (file0 :: files') now ds 0 (inject_Z elapsed))
    as [Hw | (file & next & o & start & Hw & Hf & Hn)];
    [simpl in *; lia | | ]; rewrite Hw; cbn [bind]; intros [= <-]; right.
  - exists file0, 0, file0, None. repeat split; now left.
  - exists file, o, next, (Some start). now repeat split.
Qed.






End ScheduleMore.

(** ** [get_next_show] *)

Section NextShowFacts.
Variable fs : string -> option (list string).

Lemma list_index_absent (x : string) (l : list string) :
  ~ In x l -> list_index x l = Raise ValueError.
Proof.
  induction l as [| y l IH]; intros Hx; simpl; [reflexivity|].
  destruct (String.eqb_spec y x) as [-> | Hne]; [simpl in Hx; tauto|].
  rewrite IH by (simpl in Hx; tauto). reflexivity.
Qed.

(** [index] gives the first position that holds the element. *)
Lemma list_index_first (x : string) (l : list string) :
  forall i, l !! i = Some x -> ~ In x (take i l) -> list_index x l = Ok i.
Proof.
  induction l as [| y l IH]; intros [| i] Hi Hfirst; simpl in *;
    try discriminate.
  - injection Hi as ->. now rewrite String.eqb_refl.
  - destruct (String.eqb_spec y x) as [-> | Hne]; [tauto|].
    rewrite (IH i Hi) by tauto. reflexivity.
Qed.

Lemma list_index_found (x : string) (l : list string) :
  In x l -> exists i, list_index x l = Ok i /\ (i < length l)%nat.
Proof.
  induction l as [| y l IH]; intros Hx; [destruct Hx|]. simpl.
  destruct (String.eqb_spec y x) as [-> | Hne].
  - exists 0%nat. split; [reflexivity | lia].
  - destruct Hx as [-> | Hx]; [congruence|].
    destruct (IH Hx) as (i & -> & Hi). exists (S i).
    split; [reflexivity | lia].
Qed.


(** [get_next_show] on a scan that is not empty. *)
Lemma get_next_show_steps (ch : channel) (current_file : string)
    (file0 : string) (files' : list string) :
  get_channel_files fs ch = Ok (file0 :: files') ->
  (~ In current_file (file0 :: files') ->
   get_next_show fs ch current_file = Ok (Some file0))
  /\ (forall i,
        (file0 :: files') !! i = Some current_file ->
        ~ In current_file (take i (file0 :: files')) ->
        exists next,
          (file0 :: files') !! ((i + 1) mod length (file0 :: files'))%nat
          = Some next
          /\ get_next_show fs ch current_file = Ok (Some next)).
Proof.
  intros Hscan. unfold get_next_show. rewrite Hscan. cbn [bind]. split.
  - intros Habsent. now rewrite (list_index_absent _ _ Habsent).
  - intros i Hi Hfirst. rewrite (list_index_first _ _ i Hi Hfirst).
    cbn [bind try_except].
    destruct (lookup_lt_is_Some_2 (file0 :: files')
                ((i + 1) mod length (file0 :: files'))%nat) as [next Hnext].
    { apply Nat.mod_upper_bound. simpl. lia. }
    exists next. split; [exact Hnext|].
    unfold index. now rewrite Hnext.
Qed.

(** X12. When the scan of the channel folder returns,
    [get_next_show] returns: [None] exactly when the scan is empty,
    and otherwise a file of the scan, whatever [current_file] is. *)
Theorem get_next_show_total (ch : channel) (current_file : string)
    (files : list string) :
  get_channel_files fs ch = Ok files ->
  (files = [] /\ get_next_show fs ch current_file = Ok None)
  \/ (files <> []
      /\ exists next,
           get_next_show fs ch current_file = Ok (Some next)
           /\ In next files).
Proof.
  intros Hscan.
  destruct files as [| file0 files'].
  - left. split; [reflexivity|]. unfold get_next_show. now rewrite Hscan.
  - right. split; [discriminate|].
    destruct (get_next_show_steps ch current_file file0 files' Hscan)
      as [Habsent Hfound].
    destruct (in_dec string_dec current_file (file0 :: files')) as [Hin | Hout].
    + destruct (list_index_found _ _ Hin) as (i & Hi & Hlt).
      unfold get_next_show. rewrite Hscan. cbn [bind]. rewrite Hi.
      cbn [bind].
      destruct (lookup_lt_is_Some_2 (file0 :: files')
                  ((i + 1) mod length (file0 :: files'))%nat) as [next Hnext].
      { apply Nat.mod_upper_bound. simpl. lia. }
      unfold index. rewrite Hnext. cbn [bind try_except].
      exists next. split; [reflexivity|].
      apply list_elem_of_In. eapply list_elem_of_lookup_2; eauto.
    + exists file0. split; [now apply Habsent | now left].
Qed.

(** X13. A [current_file] that the scan does not hold is answered with
    the first file of the scan: the [ValueError] of [index] is caught. *)
Theorem get_next_show_unknown (ch : channel) (current_file file0 : string)
    (files' : list string) :
  get_channel_files fs ch = Ok (file0 :: files') ->
  ~ In current_file (file0 :: files') ->
  get_next_show fs ch current_file = Ok (Some file0).
Proof.
  intros Hscan.
  exact (proj1 (get_next_show_steps ch current_file file0 files' Hscan)).
Qed.

(** X14. For the file at position [i] of the scan, at its first
    occurrence, [get_next_show] returns the file at position [i + 1],
    and the first file of the scan when [i] is the last position. *)
Theorem get_next_show_successor (ch : channel) (current_file : string)
    (files : list string) (i : nat) :
  get_channel_files fs ch = Ok files ->
  files !! i = Some current_file ->
  ~ In current_file (take i files) ->
  exists next,
    get_next_show fs ch current_file = Ok (Some next)
    /\ files !! ((i + 1) mod length files)%nat = Some next
    /\ ((i + 1 < length files)%nat -> files !! (i + 1)%nat = Some next)
    /\ ((i + 1)%nat = length files -> files !! 0%nat = Some next).
Proof.
  intros Hscan Hi Hfirst.
  destruct files as [| file0 files']; [discriminate|].
  destruct (proj2 (get_next_show_steps ch current_file file0 files' Hscan)
              i Hi Hfirst) as (next & Hnext & Hrun).
  exists next. split; [exact Hrun|]. split; [exact Hnext|]. split.
  - intros Hlt. now rewrite Nat.mod_small in Hnext by exact Hlt.
  - intros Hlast. rewrite Hlast, Nat.Div0.mod_same in Hnext. exact Hnext.
Qed.

End NextShowFacts.

(** ** The schedule, [get_next_show] and the routes together *)

Section RoutesFacts.
Context {G : Type} `{Random G}.
Variable ffprobe : string -> res string.
Variable float : string -> res Q.
Variable strftime_local : Q -> string.
Variable md5_int : string -> Z.
Variable fs : string -> option (list string).
Variable relpath_media : string -> string.

Abbreviation playing_at := (get_now_playing ffprobe float strftime_local).
Abbreviation resolved := (mapM (get_duration ffprobe float)).

(** The three outcomes of [get_now_playing]. *)
Lemma now_playing_cases
    (PLAYLISTS : gmap string (list string)) (ch : channel) (now : Q) :
  let files := default [] (PLAYLISTS !! ch_id ch) in
  (files = [] /\ playing_at PLAYLISTS ch now = Ok (None, 0, None, None))
  \/ (files <> []
      /\ exists durations,
           resolved files = Ok durations
           /\ ((int (sum durations) = 0
                /\ playing_at PLAYLISTS ch now = Raise ZeroDivisionError)
               \/ (int (sum durations) <> 0
                   /\ exists file offset next start,
                        playing_at PLAYLISTS ch now
                        = Ok (Some file, offset, Some next, start)
                        /\ In file files /\ In next files))).
Proof.
  intros files. unfold get_now_playing. fold files.
  destruct files as [| file0 files'] eqn:Hfiles; [now left|].
  right. split; [discriminate|].
  destruct (durations_total ffprobe float (file0 :: files'))
    as (ds & Hds & Hlen).
  exists ds. split; [exact Hds|]. rewrite Hds. cbn [bind]. unfold mod_.
  destruct (Z.eqb_spec (int (sum ds)) 0) as [Hzero | Hpos]; cbn [bind];
    [now left|].
  right. split; [exact Hpos|].
  destruct (walk_safe strftime_local (file0 :: files') now ds 0
              (inject_Z (int (now - START_TIME) mod int (sum ds))))
    as [Hw | (file & next & o & start & Hw & Hf & Hn)];
    [simpl in *; lia | | ]; rewrite Hw; cbn [bind].
  - exists file0, 0, file0, None. repeat split; now left.
  - exists file, o, next, (Some start). now repeat split.
Qed.



Lemma find_channel_some (CHANNELS : list channel) (channel_id : string)
    (c : channel) :
  Routes.find_channel CHANNELS channel_id = Some c ->
  In c CHANNELS /\ ch_id c = channel_id.
Proof.
  unfold Routes.find_channel. intros Hfind.
  apply find_some in Hfind as [Hin Heq]. split; [exact Hin|].
  now apply String.eqb_eq.
Qed.

Lemma find_channel_none (CHANNELS : list channel) (channel_id : string) :
  Routes.find_channel CHANNELS channel_id = None ->
  ~ In channel_id (map ch_id CHANNELS).
Proof.
  unfold Routes.find_channel. intros Hfind Hin.
  apply in_map_iff in Hin as (c & Hid & Hc).
  pose proof (find_none _ _ Hfind c Hc) as Hne. simpl in Hne.
  rewrite Hid, String.eqb_refl in Hne. discriminate.
Qed.

Lemma basename_no_slash (p : string) :
  Posix.has_slash (Posix.basename p) = false.
Proof.
  induction p as [| c p IH]; [reflexivity|]. cbn [Posix.basename].
  destruct (Posix.has_slash (String c p)) eqn:Hs; [exact IH | exact Hs].
Qed.

Lemma basename_not_na (p : string) : Posix.basename p <> "N/A".
Proof.
  intros Heq. pose proof (basename_no_slash p) as Hs.
  rewrite Heq in Hs. discriminate.
Qed.

(** The paths of the table built at startup are not empty. *)
Lemma startup_paths (CHANNELS : list channel) (g g' : G)
    (PLAYLISTS : gmap string (list string)) :
  startup md5_int fs CHANNELS ∅ g = Ok (PLAYLISTS, g') ->
  forall ch p, In p (default [] (PLAYLISTS !! ch_id ch)) -> p <> "".
Proof.
  intros Hrun ch p Hp.
  destruct (startup_table md5_int fs CHANNELS ∅ g)
    as (PL & g1 & Hrun' & Hkeys & Hall).
  rewrite Hrun in Hrun'. injection Hrun' as <- <-.
  destruct (PLAYLISTS !! ch_id ch) as [playlist |] eqn:Hpl; [| destruct Hp].
  assert (Hi : In (ch_id ch) (map ch_id CHANNELS)).
  { assert (Hsome : is_Some (PLAYLISTS !! ch_id ch)) by eauto.
    apply Hkeys in Hsome as [[x Hx] | Hi]; [| exact Hi].
    rewrite lookup_empty in Hx. discriminate. }
  pose proof (Hall _ _ Hi Hpl) as Hvalid.
  rewrite List.Forall_forall in Hvalid.
  apply valid_ext_nonempty. now apply Hvalid.
Qed.

Abbreviation index_from' := (Routes.index_from ffprobe float strftime_local).

(** The loop of [index], when it comes to its end. *)
Lemma index_from_rows (PLAYLISTS : gmap string (list string))
    (clock : nat -> Q) :
  forall (cs : list channel) (k : nat) (rows : list Routes.row),
    (forall c p, In c cs -> In p (default [] (PLAYLISTS !! ch_id c)) ->
                 p <> "") ->
    index_from' PLAYLISTS cs k clock = Ok rows ->
    Forall2 (fun c r =>
               Routes.row_id r = ch_id c /\ Routes.row_name r = ch_name c
               /\ ((default [] (PLAYLISTS !! ch_id c) = []
                    /\ Routes.row_file r = "N/A")
                   \/ (exists p, In p (default [] (PLAYLISTS !! ch_id c))
                                 /\ Routes.row_file r = Posix.basename p)))
            cs rows.
Proof.
  induction cs as [| c cs IH]; intros k rows Hpaths Hrun.
  - injection Hrun as <-. constructor.
  - cbn [Routes.index_from] in Hrun.
    destruct (now_playing_cases PLAYLISTS c (clock k))
      as [[Hempty Hnp] | (Hne & ds & Hds & [[_ Hnp] | (_ & file & o & next
                                                      & start & Hnp & Hf & _)])];
      rewrite Hnp in Hrun; cbn [bind] in Hrun; [| discriminate |].
    + destruct (index_from' PLAYLISTS cs (S k) clock) as [rest |] eqn:Hrest;
        [| discriminate].
      injection Hrun as <-. constructor.
      * simpl. repeat split. now left.
      * apply (IH (S k)); [| exact Hrest].
        intros c' p Hc'. apply Hpaths. now right.
    + destruct (index_from' PLAYLISTS cs (S k) clock) as [rest |] eqn:Hrest;
        [| discriminate].
      injection Hrun as <-. constructor.
      * simpl. repeat split. right. exists file. split; [exact Hf|].
        assert (Hfile : file <> "") by (apply (Hpaths c); [now left | exact Hf]).
        apply String.eqb_neq in Hfile. now rewrite Hfile.
      * apply (IH (S k)); [| exact Hrest].
        intros c' p Hc'. apply Hpaths. now right.
Qed.


(** X16. With the table built at startup, when [index] returns, the
    list for its template has one entry per channel, in the order of
    [CHANNELS], with the identifier and the name of the channel.  The
    file shown is "N/A" exactly for the channels whose playlist is
    empty, and otherwise the base name of a file of the playlist, which
    holds no slash. *)
Theorem index_rows (CHANNELS : list channel) (g g' : G)
    (PLAYLISTS : gmap string (list string)) (clock : nat -> Q)
    (rows : list Routes.row) :
  startup md5_int fs CHANNELS ∅ g = Ok (PLAYLISTS, g') ->
  Routes.index ffprobe float strftime_local CHANNELS PLAYLISTS clock
  = Routes.Body rows ->
  Forall2 (row_shows PLAYLISTS) CHANNELS rows.
Proof.
  intros Hstart Hindex. unfold Routes.index in Hindex.
  destruct (index_from' PLAYLISTS CHANNELS 0 clock) as [rows' |] eqn:Hrun;
    [| discriminate].
  injection Hindex as <-.
  pose proof (index_from_rows PLAYLISTS clock CHANNELS 0 rows'
                (fun c p _ => startup_paths CHANNELS g g' PLAYLISTS Hstart c p)
                Hrun) as Hrows.
  eapply Forall2_impl; [exact Hrows|].
  intros c r (Hid & Hname & Hfile). unfold row_shows. split; [exact Hid|].
  split; [exact Hname|].
  destruct Hfile as [[Hempty Hna] | (p & Hp & Hbase)].
  - split; [tauto|]. intros Hne. contradiction.
  - assert (Hne : Routes.row_file r <> "N/A")
      by (rewrite Hbase; apply basename_not_na).
    split.
    + split; [contradiction|]. intros Hempty. rewrite Hempty in Hp.
      destruct Hp.
    + intros _. split; [rewrite Hbase; apply basename_no_slash|].
      now exists p.
Qed.


Abbreviation now_view :=
  (Routes.now ffprobe float strftime_local relpath_media).



End RoutesFacts.

(** ** [get_file_metadata] and [watch] *)

Section MetadataFacts.
Variable ffprobe_json : string -> res string.
Variable json_loads : string -> option json.

Lemma has_slash_existsb (s : string) :
  Posix.has_slash s
  = existsb (fun c => Ascii.eqb c "/") (list_ascii_of_string s).
Proof. induction s as [| c s IH]; simpl; [reflexivity | now rewrite IH]. Qed.

Lemma has_slash_append (a b : string) :
  Posix.has_slash (String.append a b)
  = Posix.has_slash a || Posix.has_slash b.
Proof.
  rewrite !has_slash_existsb, list_of_append. apply existsb_app.
Qed.

Lemma has_slash_rev (s : string) :
  Posix.has_slash (rev_string s) = Posix.has_slash s.
Proof.
  rewrite !has_slash_existsb. unfold rev_string.
  rewrite list_ascii_of_string_of_list_ascii.
  apply eq_true_iff_eq. rewrite !existsb_exists.
  split; intros (c & Hc & Heq); exists c; split; try assumption.
  - now apply (proj2 (in_rev (list_ascii_of_string s) c)).
  - now apply (proj1 (in_rev (list_ascii_of_string s) c)).
Qed.

Lemma has_slash_lstrip (s : string) :
  Posix.has_slash s = false -> Posix.has_slash (lstrip s) = false.
Proof.
  intros Hs. destruct (lstrip_split s) as (ws & _ & Hsplit).
  rewrite Hsplit, has_slash_append in Hs.
  now apply orb_false_iff in Hs as [_ Hs].
Qed.

Lemma has_slash_strip (s : string) :
  Posix.has_slash s = false -> Posix.has_slash (strip s) = false.
Proof.
  intros Hs. unfold strip. rewrite has_slash_rev.
  apply has_slash_lstrip. rewrite has_slash_rev.
  now apply has_slash_lstrip.
Qed.

Lemma take_drop_until (stop : ascii -> bool) (l : list ascii) :
  Posix.take_until stop l ++ Posix.drop_until stop l = l.
Proof.
  induction l as [| c l IH]; simpl; [reflexivity|].
  destruct (stop c); simpl; [reflexivity | now rewrite IH].
Qed.

(** [splitext] cuts the path in two: stem and extension give the path
    back. *)
Lemma splitext_append (p : string) :
  String.append (Posix.splitext p).1 (Posix.splitext p).2 = p.
Proof.
  unfold Posix.splitext.
  set (is_mark := fun c : ascii => Ascii.eqb c "." || Ascii.eqb c "/").
  set (r := rev (list_ascii_of_string p)).
  pose proof (take_drop_until is_mark r) as Hsplit.
  destruct (Posix.drop_until is_mark r) as [| c rest].
  - simpl. clear. induction p as [| c p IH]; [reflexivity|].
    change (String c (String.append p "") = String c p). now rewrite IH.
  - destruct (Ascii.eqb c "." && _).
    + simpl. rewrite <- string_of_app, <- rev_app_distr, <- app_assoc.
      simpl. rewrite Hsplit. subst r.
      now rewrite rev_involutive, string_of_list_ascii_of_string.
    + simpl. clear. induction p as [| c p IH]; [reflexivity|].
      change (String c (String.append p "") = String c p). now rewrite IH.
Qed.

Lemma splitext_no_slash (p : string) :
  Posix.has_slash p = false -> Posix.has_slash (Posix.splitext p).1 = false.
Proof.
  intros Hp. rewrite <- (splitext_append p), has_slash_append in Hp.
  now apply orb_false_iff in Hp as [Hp _].
Qed.

Lemma dict_get_set_same (l : list (string * json)) (key : string) (v : json) :
  dict_get (dict_set l key v) key = Some v.
Proof.
  induction l as [| [k w] l IH]; simpl.
  - now rewrite String.eqb_refl.
  - destruct (String.eqb k key) eqn:Hk; simpl; now rewrite Hk.
Qed.

Lemma dict_get_set_other (l : list (string * json)) (key key' : string)
    (v : json) :
  key' <> key -> dict_get (dict_set l key v) key' = dict_get l key'.
Proof.
  intros Hne. induction l as [| [k w] l IH]; simpl.
  - apply String.eqb_neq in Hne. rewrite String.eqb_sym in Hne.
    now rewrite Hne.
  - destruct (String.eqb_spec k key) as [-> | Hk]; simpl.
    + apply String.eqb_neq in Hne. rewrite String.eqb_sym in Hne.
      now rewrite Hne.
    + now rewrite IH.
Qed.

Lemma dict_set_keys (l : list (string * json)) (key : string) (v w : json) :
  dict_get l key = Some w -> map fst (dict_set l key v) = map fst l.
Proof.
  induction l as [| [k u] l IH]; simpl; [discriminate|].
  destruct (String.eqb k key); simpl; [reflexivity|].
  intros Hget. now rewrite IH.
Qed.

(** X20. When the probe prints an object whose [format] entry is an
    object with a string under [filename], [get_file_metadata] returns
    that [format] object with the same keys in the same order and every
    other value untouched; the new [filename] is the stem of the old
    one: the base name, stripped, with the extension cut off, so it
    holds no slash and, with the extension put back, gives the stripped
    base name. *)
Theorem metadata_filename (filepath stdout : string)
    (top l : list (string * json)) (filename : string) :
  ffprobe_json filepath = Ok stdout ->
  json_loads stdout = Some (JObj top) ->
  dict_get top "format" = Some (JObj l) ->
  dict_get l "filename" = Some (JStr filename) ->
  exists (l' : list (string * json)) (name ext : string),
    get_file_metadata ffprobe_json json_loads filepath = JObj l'
    /\ map fst l' = map fst l
    /\ dict_get l' "filename" = Some (JStr name)
    /\ (forall key, key <> "filename" -> dict_get l' key = dict_get l key)
    /\ Posix.has_slash name = false
    /\ String.append name ext = strip (Posix.basename filename).
Proof.
  intros Hrun Hloads Hformat Hname.
  set (base := strip (Posix.basename filename)).
  exists (dict_set l "filename" (JStr (Posix.splitext base).1)),
    (Posix.splitext base).1, (Posix.splitext base).2.
  split.
  - unfold get_file_metadata, metadata_of_stdout.
    rewrite Hrun, Hloads, Hformat. cbn [default from_option id py_in].
    now rewrite Hname.
  - split; [now apply dict_set_keys with (JStr filename)|].
    split; [apply dict_get_set_same|].
    split; [intros key Hkey; now apply dict_get_set_other|].
    split; [| apply splitext_append].
    apply splitext_no_slash, has_slash_strip, basename_no_slash.
Qed.

(** X21. [get_file_metadata] returns the empty dictionary when the
    probe cannot be run, when its output is no JSON, when the JSON is no
    object, and when the [filename] of the [format] object is no
    string: every exception of the body is caught. *)
Theorem metadata_fallback (filepath : string) :
  (forall e, ffprobe_json filepath = Raise e ->
             get_file_metadata ffprobe_json json_loads filepath = JObj [])
  /\ (forall stdout,
        ffprobe_json filepath = Ok stdout ->
        (json_loads stdout = None
         \/ (exists v, json_loads stdout = Some v
                       /\ forall top, v <> JObj top)
         \/ (exists top l v,
               json_loads stdout = Some (JObj top)
               /\ dict_get top "format" = Some (JObj l)
               /\ dict_get l "filename" = Some v
               /\ forall s, v <> JStr s)) ->
        get_file_metadata ffprobe_json json_loads filepath = JObj []).
Proof.
  unfold get_file_metadata, metadata_of_stdout. split.
  - now intros e ->.
  - intros stdout -> [-> | [(v & -> & Hv) | (top & l & v & -> & Hf & Hn & Hv)]].
    + reflexivity.
    + destruct v; try reflexivity. now destruct (Hv l).
    + rewrite Hf. cbn [default from_option id py_in]. rewrite Hn.
      destruct v; try reflexivity. now destruct (Hv s).
Qed.

End MetadataFacts.

Section WatchFacts.
Variable ffprobe : string -> res string.
Variable float : string -> res Q.
Variable strftime_local : Q -> string.
Variable relpath_media : string -> string.
Variable ffprobe_json : string -> res string.
Variable json_loads : string -> option json.

(** X22. The player page and the sync endpoint agree.  Asked for the
    same channel at the same reading of the clock, [watch] calls
    [abort] with the status [now] calls it with, lets out the exception
    [now] lets out, and otherwise hands its template the file, offset,
    duration, next file and next time of the dictionary of [now],
    together with the channel found, the whole list of channels and the
    metadata of the current file, a file of the channel's playlist. *)
Theorem watch_agrees_with_now (CHANNELS : list channel)
    (PLAYLISTS : gmap string (list string)) (channel_id : string) (t : Q) :
  match Routes.now ffprobe float strftime_local relpath_media
          CHANNELS PLAYLISTS channel_id t with
  | Routes.Abort status =>
      Routes.watch ffprobe float strftime_local relpath_media
        CHANNELS PLAYLISTS ffprobe_json json_loads channel_id t
      = Routes.Abort status
  | Routes.Crash e =>
      Routes.watch ffprobe float strftime_local relpath_media
        CHANNELS PLAYLISTS ffprobe_json json_loads channel_id t
      = Routes.Crash e
  | Routes.Body body =>
      exists page p,
        Routes.watch ffprobe float strftime_local relpath_media
          CHANNELS PLAYLISTS ffprobe_json json_loads channel_id t
        = Routes.Body page
        /\ Routes.find_channel CHANNELS channel_id
           = Some (Routes.player_channel page)
        /\ Routes.player_channels page = CHANNELS
        /\ In p (default [] (PLAYLISTS !! ch_id (Routes.player_channel page)))
        /\ Routes.player_current_file page = relpath_media p
        /\ Routes.player_metadata page
           = get_file_metadata ffprobe_json json_loads p
        /\ Routes.player_current_file page = Routes.sync_file body
        /\ Routes.player_offset page = Routes.sync_offset body
        /\ Routes.player_duration page = Routes.sync_duration body
        /\ Routes.player_next_file page = Routes.sync_next_file body
        /\ Routes.player_next_time page = Routes.sync_next_time body
  end.
Proof.
  unfold Routes.now, Routes.watch.
  destruct (Routes.find_channel CHANNELS channel_id) as [c |];
    [| reflexivity].
  destruct (now_playing_cases ffprobe float strftime_local PLAYLISTS c t)
    as [[_ Hnp] | (_ & ds & _ & [[_ Hnp] | (_ & file & o & next & start
                                            & Hnp & Hf & _)])];
    rewrite Hnp; try reflexivity.
  destruct (str_truthy (Some file)); [| reflexivity].
  destruct (get_duration ffprobe float file) as [d | e]; [| reflexivity].
  eexists _, file. split; [reflexivity|]. cbn. now repeat split.
Qed.

End WatchFacts.

(** ** The further properties on the concrete world *)

Example basename_ex :
  Posix.basename "media/tv/a.mp4" = "a.mp4" /\ Posix.basename "a" = "a"
  /\ Posix.basename "a/" = "".
Proof. repeat split; reflexivity. Qed.

Example splitext_ex :
  Posix.splitext "a.b.mp4" = ("a.b", ".mp4")
  /\ Posix.splitext ".bashrc" = (".bashrc", "")
  /\ Posix.splitext "dir.d/file" = ("dir.d/file", "")
  /\ Posix.splitext "..x." = ("..x", ".").
Proof. repeat split; reflexivity. Qed.

Example startup_ex :
  startup Fake.fake_md5_int Fake.fake_fs [tv_plain; docs] ∅ 1%nat
  = Ok (fake_table, 1%nat).
Proof. vm_compute. reflexivity. Qed.

Example get_file_metadata_ex :
  get_file_metadata fake_ffprobe_json fake_json_loads "media/tv/a.MP4"
  = JObj [("filename", JStr "a.b"); ("format_name", JStr "mov,mp4");
          ("duration", JStr "600.000000")].
Proof. reflexivity. Qed.

(** Witness for X1. *)
Lemma scan_paths_valid_witness :
  exists files,
    get_channel_files Fake.fake_fs tv_plain = Ok files
    /\ Forall (fun p =>
         valid_ext p = true /\ p <> ""
         /\ exists f,
              In f ["b.mp4"; "notes.txt"; "a.MP4"]
              /\ ascii_name f = true /\ valid_ext f = true
              /\ p = path_join (ch_path tv_plain) (strip f)) files.
Proof.
  apply (scan_paths_valid Fake.fake_fs tv_plain
           ["b.mp4"; "notes.txt"; "a.MP4"]); reflexivity.
Defined.

(** Witness for X2: the filler is on and the pool holds two clips. *)
Lemma build_playlist_total_witness :
  exists playlist (g' : nat),
    build_playlist Fake.fake_md5_int Fake.fake_fs (Fake.tv None None) 1%nat
    = Ok (playlist, g')
    /\ sublist (ordered_files Fake.fake_md5_int (Fake.tv None None) tv_files)
               playlist
    /\ Forall (fun x =>
                 In x tv_files
                 \/ In x ["media/commercials/ad2.mp4";
                          "media/commercials/ad1.mp4"]) playlist.
Proof.
  apply (build_playlist_total Fake.fake_md5_int Fake.fake_fs
           (Fake.tv None None) 1%nat tv_files
           ["media/commercials/ad2.mp4"; "media/commercials/ad1.mp4"]);
    reflexivity.
Defined.

(** Witness for X3. *)
Lemma build_playlist_no_clips_witness :
  build_playlist Fake.fake_md5_int fs_no_ads (Fake.tv None None) 1%nat
  = Ok (tv_files, 1%nat).
Proof.
  apply (build_playlist_no_clips Fake.fake_md5_int fs_no_ads
           (Fake.tv None None) tv_files 1%nat); reflexivity.
Defined.

(** Witness for X4. *)
Lemma scan_order_irrelevant_witness :
  get_channel_files Fake.fake_fs tv_plain
  = get_channel_files fs_other_order tv_plain
  /\ (filler_on tv_plain = false ->
      forall g : nat,
        build_playlist Fake.fake_md5_int Fake.fake_fs tv_plain g
        = build_playlist Fake.fake_md5_int fs_other_order tv_plain g).
Proof.
  apply (scan_order_irrelevant Fake.fake_md5_int Fake.fake_fs fs_other_order
           tv_plain ["b.mp4"; "notes.txt"; "a.MP4"]
           ["a.MP4"; "b.mp4"; "notes.txt"]);
    [reflexivity | reflexivity |].
  symmetry. apply (Permutation_cons_append ["b.mp4"; "notes.txt"] "a.MP4").
Defined.

(** Witness for X5. *)
Lemma sequential_playlist_is_scan_witness :
  exists files,
    get_channel_files Fake.fake_fs tv_plain = Ok files
    /\ Sorted str_le files
    /\ sorted files = files
    /\ (eq_str (ch_rotation tv_plain) "random" = false ->
        filler_on tv_plain = false ->
        forall g : nat,
          build_playlist Fake.fake_md5_int Fake.fake_fs tv_plain g
          = Ok (files, g)).
Proof.
  apply (sequential_playlist_is_scan Fake.fake_md5_int Fake.fake_fs tv_plain
           ["b.mp4"; "notes.txt"; "a.MP4"]); [reflexivity|].
  repeat constructor.
Defined.

(** Witness for X6. *)
Lemma startup_total_witness :
  exists PLAYLISTS (g' : nat),
    startup Fake.fake_md5_int Fake.fake_fs [tv_plain; docs] ∅ 1%nat
    = Ok (PLAYLISTS, g')
    /\ (forall i, is_Some (PLAYLISTS !! i)
                  <-> In i (map ch_id [tv_plain; docs]))
    /\ (forall i playlist,
          PLAYLISTS !! i = Some playlist ->
          Forall (fun x =>
                    In x ["media/commercials/ad2.mp4";
                          "media/commercials/ad1.mp4"]
                    \/ exists ch files,
                         In ch [tv_plain; docs] /\ ch_id ch = i
                         /\ get_channel_files Fake.fake_fs ch = Ok files
                         /\ In x files) playlist).
Proof.
  apply (startup_total Fake.fake_md5_int Fake.fake_fs [tv_plain; docs] 1%nat
           ["media/commercials/ad2.mp4"; "media/commercials/ad1.mp4"]);
    reflexivity.
Defined.

(** Witness for X7: two channels with the identifier ["tv"]. *)
Lemma startup_last_wins_witness :
  exists (g1 g2 : nat) playlist,
    build_playlist Fake.fake_md5_int Fake.fake_fs tv_plain g1
    = Ok (playlist, g2)
    /\ (<["tv" := tv_files]> (<["tv" := []]> ∅) : gmap string (list string))
       !! "tv" = Some playlist.
Proof.
  apply (startup_last_wins Fake.fake_md5_int Fake.fake_fs [tv_on_docs] []
           tv_plain ∅ (<["tv" := tv_files]> (<["tv" := []]> ∅)) 1%nat 1%nat).
  - vm_compute. reflexivity.
  - intros [].
Defined.


(** Witness for X9. *)
Lemma now_playing_result_witness :
  ((Some "media/tv/b.mp4", 100, Some "media/tv/a.MP4", Some "")
   = (None, 0, None, None)
   /\ default [] (table tv_files !! ch_id tv_plain) = [])
  \/ (exists file offset next start,
        (Some "media/tv/b.mp4", 100, Some "media/tv/a.MP4", Some "")
        = (Some file, offset, Some next, start)
        /\ In file (default [] (table tv_files !! ch_id tv_plain))
        /\ In next (default [] (table tv_files !! ch_id tv_plain))).
Proof.
  apply (now_playing_result Fake.fake_ffprobe Fake.fake_float
           Fake.fake_strftime (table tv_files) tv_plain (START_TIME + 700)).
  vm_compute. reflexivity.
Defined.



(** Witness for X12. *)
Lemma get_next_show_total_witness :
  (tv_files = []
   /\ get_next_show Fake.fake_fs tv_plain "media/tv/a.MP4" = Ok None)
  \/ (tv_files <> []
      /\ exists next,
           get_next_show Fake.fake_fs tv_plain "media/tv/a.MP4"
           = Ok (Some next)
           /\ In next tv_files).
Proof.
  apply (get_next_show_total Fake.fake_fs tv_plain "media/tv/a.MP4"
           tv_files); reflexivity.
Defined.

(** Witness for X13. *)
Lemma get_next_show_unknown_witness :
  get_next_show Fake.fake_fs tv_plain "media/tv/z.mp4"
  = Ok (Some "media/tv/a.MP4").
Proof.
  apply (get_next_show_unknown Fake.fake_fs tv_plain "media/tv/z.mp4"
           "media/tv/a.MP4" ["media/tv/b.mp4"]); [reflexivity|].
  intros [H | [H | []]]; discriminate H.
Defined.

(** Witness for X14: the last file of the scan. *)
Lemma get_next_show_successor_witness :
  exists next,
    get_next_show Fake.fake_fs tv_plain "media/tv/b.mp4" = Ok (Some next)
    /\ tv_files !! ((1 + 1) mod length tv_files)%nat = Some next
    /\ ((1 + 1 < length tv_files)%nat -> tv_files !! (1 + 1)%nat = Some next)
    /\ ((1 + 1)%nat = length tv_files -> tv_files !! 0%nat = Some next).
Proof.
  apply (get_next_show_successor Fake.fake_fs tv_plain "media/tv/b.mp4"
           tv_files 1); [reflexivity | reflexivity |].
  intros [H | []]. discriminate H.
Defined.


(** Witness for X16. *)
Lemma index_rows_witness :
  Forall2 (row_shows fake_table) [tv_plain; docs]
    [ {| Routes.row_id := "tv"; Routes.row_name := "TV";
         Routes.row_file := "b.mp4" |};
      {| Routes.row_id := "docs"; Routes.row_name := "Docs";
         Routes.row_file := "N/A" |} ].
Proof.
  apply (index_rows Fake.fake_ffprobe Fake.fake_float Fake.fake_strftime
           Fake.fake_md5_int Fake.fake_fs [tv_plain; docs] 1%nat 1%nat
           fake_table (fun _ => (START_TIME + 700)%Q)).
  - vm_compute. reflexivity.
  - vm_compute. reflexivity.
Defined.




(** Witness for X20. *)
Lemma metadata_filename_witness :
  exists (l' : list (string * json)) (name ext : string),
    get_file_metadata fake_ffprobe_json fake_json_loads "media/tv/a.MP4"
    = JObj l'
    /\ map fst l' = map fst fake_format
    /\ dict_get l' "filename" = Some (JStr name)
    /\ (forall key, key <> "filename" ->
                    dict_get l' key = dict_get fake_format key)
    /\ Posix.has_slash name = false
    /\ String.append name ext = strip (Posix.basename "media/tv/ a.b.MP4").
Proof.
  apply (metadata_filename fake_ffprobe_json fake_json_loads
           "media/tv/a.MP4" "{format}" [("format", JObj fake_format)]
           fake_format "media/tv/ a.b.MP4"); reflexivity.
Defined.
